(** * Audio visualizer: band mapping, smoothing, peak tracking and colours

    A shallow embedding of [lib/audio-engine.ts] (class [WMPAudioEngine],
    the band mapper [convertToLogarithmic]) and of
    [lib/visualization-manager.ts] (class [WMPVisualizationManager]).

    Number model.  A JavaScript [number] is modelled as a real number and
    every arithmetic operation as the exact operation on reals.  [NaN]
    and the infinities are not part of the model; in this code they can
    only come from [0/0], from reading an array outside its bounds and
    from [i % 0].  Every definition that meets one of these says which
    value the model takes there, and the theorems that speak about
    computed values prove or assume that the case does not occur. *)

From Stdlib Require Import Reals Lra Lia ZArith.
From Stdlib Require Strings.Byte.
From stdpp Require Import base decidable option list.

Local Open Scope R_scope.

(** ** JavaScript numeric primitives *)

#[global] Instance Rlt_decision (x y : R) : Decision (x < y) := Rlt_dec x y.
#[global] Instance Rle_decision (x y : R) : Decision (x <= y) := Rle_dec x y.
#[global] Instance Rgt_decision (x y : R) : Decision (x > y) := Rgt_dec x y.
#[global] Instance Rge_decision (x y : R) : Decision (x >= y) := Rge_dec x y.

#[global] Instance nat_ge_decision (x y : nat) : Decision (x >= y)%nat :=
  Nat.le_dec y x.
#[global] Instance nat_gt_decision (x y : nat) : Decision (x > y)%nat :=
  Nat.lt_dec y x.

#[global] Instance R_inhabited : Inhabited R := populate 0.

(** [Math.trunc]: rounding towards zero. *)
Definition Ztrunc (x : R) : Z :=
  if decide (0 <= x) then Zfloor x else (- Zfloor (- x))%Z.

(** The [%] operator on numbers: the remainder takes the sign of the
    dividend, [a % b = a - b * trunc (a / b)]. *)
Definition js_rem (a b : R) : R := a - b * IZR (Ztrunc (a / b)).

(** ** Colour mapper ([visualization-manager.ts]) *)

Inductive ColorScheme := wmp | modern.

(** [[number, number, number]] *)
Definition Color : Type := R * R * R.

Definition red (c : Color) : R := fst (fst c).
Definition green (c : Color) : R := snd (fst c).
Definition blue (c : Color) : R := snd c.

(** Every channel lies in [0,1]. *)
Definition color_in_range (c : Color) : Prop :=
  (0 <= red c <= 1) /\ (0 <= green c <= 1) /\ (0 <= blue c <= 1).

(** [hsvToRgb(h, s, v)] *)
Definition hsvToRgb (h s v : R) : Color :=
  let h := h / 60 in
  let c := v * s in
  let x := c * (1 - Rabs (js_rem h 2 - 1)) in
  let m := v - c in
  let '(r, g, b) :=
    if bool_decide (h >= 0) && bool_decide (h < 1) then (c, x, 0)
    else if bool_decide (h >= 1) && bool_decide (h < 2) then (x, c, 0)
    else if bool_decide (h >= 2) && bool_decide (h < 3) then (0, c, x)
    else if bool_decide (h >= 3) && bool_decide (h < 4) then (0, x, c)
    else if bool_decide (h >= 4) && bool_decide (h < 5) then (x, 0, c)
    else (c, 0, x) in
  (r + m, g + m, b + m).

(** [calculateWMPColor(intensity)] *)
Definition calculateWMPColor (intensity : R) : Color :=
  let hue := 120 - intensity * 120 in
  let saturation := 1 in
  let value := Rmax (3 / 10) intensity in
  hsvToRgb hue saturation value.

(** [calculateModernColor(intensity)] *)
Definition calculateModernColor (intensity : R) : Color :=
  if decide (intensity < 1 / 2) then
    let t := intensity * 2 in (0, t, 1)
  else
    let t := (intensity - 1 / 2) * 2 in (t, 1, 1).

(** [calculateWaveColor(amplitude)], with [this.config.colorScheme] passed
    explicitly. *)
Definition calculateWaveColor (scheme : ColorScheme) (amplitude : R) : Color :=
  match scheme with
  | wmp => calculateWMPColor amplitude
  | modern => calculateModernColor amplitude
  end.

(** [calculateCenterGlowColor(intensity)] *)
Definition calculateCenterGlowColor (intensity : R) : Color :=
  let hue := 120 - intensity * 240 in
  hsvToRgb hue 1 1.

(** ** Band mapper ([audio-engine.ts], class [WMPAudioEngine]) *)

(** A [Uint8Array]: its entries are bytes by type. *)
Abbreviation Uint8Array := (list Init.Byte.byte).

(** The numeric value of an entry of a [Uint8Array]. *)
Definition byte_value (b : Init.Byte.byte) : R :=
  IZR (Z.of_N (Strings.Byte.to_N b)).

(** Reading a [Uint8Array] at a number [i].  An index outside the array
    gives [undefined] in JavaScript (and [NaN] once divided); the model
    takes 0 there. *)
Definition byte_at (a : Uint8Array) (i : Z) : R :=
  if decide (i < 0)%Z then 0
  else match a !! Z.to_nat i with
       | Some b => byte_value b
       | None => 0
       end.

Definition FFT_SIZE : nat := 2048.
Definition FREQUENCY_BANDS : nat := 64.
Definition PEAK_DECAY_RATE : R := 95 / 100.

(** The local constant [logIndex] of [convertToLogarithmic], for band [i]
    of [bands] over [binCount] bins.  [Math.pow] is the real power
    function, which agrees with JavaScript for a base [binCount >= 1].
    With a single bin JavaScript computes [0/0 = NaN], where the model's
    quotient is 0; the theorems about [logIndex] assume two bins. *)
Definition logIndex (binCount bands i : nat) : Z :=
  Zfloor ((Rpower (INR binCount) (INR i / INR bands) - 1)
          / (INR binCount - 1) * INR binCount).

(** The index [Math.min(logIndex, binCount - 1)] at which band [i] reads
    the snapshot. *)
Definition binIndex (binCount bands i : nat) : Z :=
  Z.min (logIndex binCount bands i) (Z.of_nat binCount - 1).

(** [convertToLogarithmic(frequencyData)]; [this.FREQUENCY_BANDS] is the
    argument [bands]. *)
Definition convertToLogarithmic (bands : nat) (frequencyData : Uint8Array)
  : list R :=
  let binCount := length frequencyData in
  map (fun i =>
         let value :=
           byte_at frequencyData (binIndex binCount bands i) / 255 in
         value)
      (seq 0 bands).

(** An integer test for [logIndex binCount bands i = k]: with
    [N = binCount], [k <= (N^(i/bands) - 1) / (N - 1) * N < k + 1] is
    [(k (N-1) + N)^bands <= N^(i+bands) < ((k+1) (N-1) + N)^bands]
    (lemma [logIndex_iff]). *)
Definition logIndex_check (binCount bands i : nat) (k : Z) : bool :=
  let N := Z.of_nat binCount in
  let target := (N ^ Z.of_nat (i + bands))%Z in
  (0 <=? k)%Z
  && ((k * (N - 1) + N) ^ Z.of_nat bands <=? target)%Z
  && (target <? ((k + 1) * (N - 1) + N) ^ Z.of_nat bands)%Z.

(** [updatePeaks(logarithmic)]: the engine's own peak list, one entry per
    index below both lengths. *)
Definition updatePeaks (logarithmic peaks : list R) : list R :=
  foldl (fun peaks i =>
           <[i := Rmax (logarithmic !!! i) (peaks !!! i * PEAK_DECAY_RATE)]> peaks)
        peaks
        (seq 0 (min (length logarithmic) (length peaks))).

Record FrequencyData := {
  fd_raw : Uint8Array;
  fd_logarithmic : list R;
  fd_peaks : list R
}.

Record WaveformData := {
  wd_raw : Uint8Array;
  wd_normalized : list R
}.

(** [getFrequencyData()].  The analyser node is outside the program: the
    argument is the byte snapshot it writes, or [None] when there is no
    analyser.  The engine's peak list is threaded explicitly. *)
Definition getFrequencyData (snapshot : option (Uint8Array)) (peaks : list R)
  : option FrequencyData * list R :=
  match snapshot with
  | None => (None, peaks)
  | Some frequencyData =>
      let logarithmic := convertToLogarithmic FREQUENCY_BANDS frequencyData in
      let peaks := updatePeaks logarithmic peaks in
      (Some {| fd_raw := frequencyData;
               fd_logarithmic := logarithmic;
               fd_peaks := peaks |}, peaks)
  end.

(** [getWaveformData()], with the analyser's time-domain snapshot as the
    argument. *)
Definition getWaveformData (snapshot : option (Uint8Array))
  : option WaveformData :=
  match snapshot with
  | None => None
  | Some waveformData =>
      Some {| wd_raw := waveformData;
              wd_normalized :=
                map (fun value => (byte_value value - 128) / 128) waveformData |}
  end.

(** ** Visualization manager ([visualization-manager.ts]) *)

(** [VisualizationConfig].  The bar count is a natural number; with a
    negative or fractional count [new Array(size)] raises a [RangeError]
    in [initializeArrays], which the model leaves out. *)
Record VisualizationConfig := {
  barCount : nat;
  colorScheme : ColorScheme;
  peakHold : bool;
  peakDecay : R;
  smoothing : R;
  amplification : R
}.

Record BarVisualizationData := {
  bv_heights : list R;
  bv_peaks : list R;
  bv_colors : list Color
}.

Record CircularPoint := {
  pt_x : R;
  pt_y : R;
  pt_amplitude : R;
  pt_color : Color
}.

Record CenterGlow := {
  glow_intensity : R;
  glow_color : Color
}.

Record CircularVisualizationData := {
  cv_points : list CircularPoint;
  cv_rotation : R;
  cv_centerGlow : CenterGlow
}.

(** The fields of a [WMPVisualizationManager] instance. *)
Record Manager := {
  config : VisualizationConfig;
  peakValues : list R;
  peakHoldFrames : list nat;
  smoothedValues : list R;
  rotation : R
}.

Definition PEAK_HOLD_FRAMES : nat := 30.

Definition set_peakValues (f : list R -> list R) (m : Manager) : Manager :=
  {| config := config m; peakValues := f (peakValues m);
     peakHoldFrames := peakHoldFrames m;
     smoothedValues := smoothedValues m; rotation := rotation m |}.

Definition set_peakHoldFrames (f : list nat -> list nat) (m : Manager) : Manager :=
  {| config := config m; peakValues := peakValues m;
     peakHoldFrames := f (peakHoldFrames m);
     smoothedValues := smoothedValues m; rotation := rotation m |}.

Definition set_smoothedValues (f : list R -> list R) (m : Manager) : Manager :=
  {| config := config m; peakValues := peakValues m;
     peakHoldFrames := peakHoldFrames m;
     smoothedValues := f (smoothedValues m); rotation := rotation m |}.

Definition set_rotation (f : R -> R) (m : Manager) : Manager :=
  {| config := config m; peakValues := peakValues m;
     peakHoldFrames := peakHoldFrames m;
     smoothedValues := smoothedValues m; rotation := f (rotation m) |}.

Definition set_config (f : VisualizationConfig -> VisualizationConfig)
  (m : Manager) : Manager :=
  {| config := f (config m); peakValues := peakValues m;
     peakHoldFrames := peakHoldFrames m;
     smoothedValues := smoothedValues m; rotation := rotation m |}.

(** *** The monad of manager methods

    A method reads and updates the fields of [this] and either returns or
    throws.  The two errors are the ones the specification names; the
    source has no [throw] statement, and no definition below raises. *)

Inductive error := InvalidConfiguration | IndexOutOfBounds.

Inductive outcome (A : Type) :=
  | Returned (a : A)
  | Thrown (e : error).
Arguments Returned {A} a.
Arguments Thrown {A} e.

Definition M (A : Type) : Type := Manager -> outcome (A * Manager).

#[global] Instance M_ret : MRet M := fun A a this => Returned (a, this).

#[global] Instance M_bind : MBind M := fun A B f m this =>
  match m this with
  | Returned (a, this') => f a this'
  | Thrown e => Thrown e
  end.

Definition get : M Manager := fun this => Returned (this, this).
Definition modify (f : Manager -> Manager) : M unit :=
  fun this => Returned (tt, f this).

(** [for (let i = 0; i < n; i++) { ...; result.push(v) }] *)
Definition for_push {A} (n : nat) (body : nat -> M A) : M (list A) :=
  mapM body (seq 0 n).

(** [smoothValue(newValue, index)].  Past the guard the index is inside
    the array, so the read and the write are in range. *)
Definition smoothValue (newValue : R) (index : nat) : M R :=
  this ← get;
  if decide (index >= length (smoothedValues this))%nat then mret newValue
  else
    let oldValue := smoothedValues this !!! index in
    let smoothed := oldValue + (newValue - oldValue) * smoothing (config this) in
    _ ← modify (set_smoothedValues <[index := smoothed]>);
    mret smoothed.

(** One pass of the loop of [calculateBarHeights], for bar [i].
    [logarithmicData[i] || 0] is 0 for a missing entry. *)
Definition calculateBarHeights_pass (logarithmicData : list R) (i : nat) : M R :=
  this ← get;
  let value := default 0 (logarithmicData !! i) in
  let height := value * amplification (config this) in
  height ← smoothValue height i;
  let height := Rmax 0 (Rmin 1 height) in
  mret height.

(** [calculateBarHeights(logarithmicData)] *)
Definition calculateBarHeights (logarithmicData : list R) : M (list R) :=
  this ← get;
  for_push (barCount (config this)) (calculateBarHeights_pass logarithmicData).

(** One pass of the loop of [calculatePeaks], for bar [i]: compare, else
    hold, else decay.  The state arrays have at least [heights.length]
    entries when the constructor and [updateConfig] built them (lemma
    [wf_updateConfig]); for a shorter array JavaScript would read
    [undefined] and store [NaN], where the model reads 0 and stores
    nothing. *)
Definition calculatePeaks_pass (heights : list R) (i : nat) : M R :=
  let currentHeight := heights !!! i in
  this ← get;
  _ ← (if decide (currentHeight > peakValues this !!! i) then
         _ ← modify (set_peakValues <[i := currentHeight]>);
         modify (set_peakHoldFrames <[i := PEAK_HOLD_FRAMES]>)
       else if decide (peakHoldFrames this !!! i > 0)%nat then
         modify (set_peakHoldFrames <[i := pred (peakHoldFrames this !!! i)]>)
       else
         modify (set_peakValues
                   <[i := peakValues this !!! i * peakDecay (config this)]>));
  this ← get;
  mret (if peakHold (config this) then peakValues this !!! i else 0).

(** [calculatePeaks(heights)] *)
Definition calculatePeaks (heights : list R) : M (list R) :=
  for_push (length heights) (calculatePeaks_pass heights).

(** [calculateBarColors(heights, peaks)] *)
Definition calculateBarColors (heights peaks : list R) : M (list Color) :=
  this ← get;
  for_push (length heights) (fun i =>
    let height := heights !!! i in
    let peak := peaks !!! i in
    let colorValue := Rmax height peak in
    mret (match colorScheme (config this) with
          | wmp => calculateWMPColor colorValue
          | modern => calculateModernColor colorValue
          end)).

(** [calculateAverageAmplitude(waveform)].  For an empty waveform
    JavaScript computes [0/0 = NaN]; the model's quotient is 0. *)
Definition calculateAverageAmplitude (waveform : list R) : R :=
  let total := foldl (fun total value => total + Rabs value) 0 waveform in
  total / INR (length waveform).

(** [generateSilentBars()] *)
Definition generateSilentBars : M BarVisualizationData :=
  this ← get;
  let heights := replicate (barCount (config this)) 0 in
  let peaks := replicate (barCount (config this)) 0 in
  let colors := replicate (barCount (config this)) (2 / 10, 2 / 10, 2 / 10) in
  mret {| bv_heights := heights; bv_peaks := peaks; bv_colors := colors |}.

(** [generateSilentCircular(width, height)] *)
Definition generateSilentCircular (width height : R)
  : M CircularVisualizationData :=
  let centerX := width / 2 in
  let centerY := height / 2 in
  let baseRadius := Rmin centerX centerY * (3 / 10) in
  let pointCount := 256%nat in
  let angleStep := (PI * 2) / INR pointCount in
  points ← for_push pointCount (fun i =>
    let angle := INR i * angleStep in
    let x := centerX + cos angle * baseRadius in
    let y := centerY + sin angle * baseRadius in
    mret {| pt_x := x; pt_y := y; pt_amplitude := 0;
            pt_color := (3 / 10, 3 / 10, 3 / 10) |});
  mret {| cv_points := points;
          cv_rotation := 0;
          cv_centerGlow := {| glow_intensity := 0; glow_color := (0, 0, 0) |} |}.

(** [generateBarsVisualization(frequencyData)] *)
Definition generateBarsVisualization (frequencyData : option FrequencyData)
  : M BarVisualizationData :=
  match frequencyData with
  | None => generateSilentBars
  | Some frequencyData =>
      heights ← calculateBarHeights (fd_logarithmic frequencyData);
      peaks ← calculatePeaks heights;
      colors ← calculateBarColors heights peaks;
      mret {| bv_heights := heights; bv_peaks := peaks; bv_colors := colors |}
  end.

(** [generateCircularVisualization(waveformData, width, height)].
    [i % this.smoothedValues.length] is [NaN] for an empty state array,
    which makes JavaScript return [NaN] amplitudes; the model's remainder
    by 0 is [i], which [smoothValue] passes through its guard. *)
Definition generateCircularVisualization (waveformData : option WaveformData)
  (width height : R) : M CircularVisualizationData :=
  match waveformData with
  | None => generateSilentCircular width height
  | Some waveformData =>
      let centerX := width / 2 in
      let centerY := height / 2 in
      let baseRadius := Rmin centerX centerY * (3 / 10) in
      let avgAmplitude := calculateAverageAmplitude (wd_normalized waveformData) in
      _ ← modify (set_rotation (fun r => r + (1 / 100 + avgAmplitude * (5 / 100))));
      let pointCount := 256%nat in
      let angleStep := (PI * 2) / INR pointCount in
      points ← for_push pointCount (fun i =>
        let waveIndex :=
          Zfloor ((INR i / INR pointCount)
                  * INR (length (wd_normalized waveformData))) in
        let amplitude :=
          Rabs (default 0 (wd_normalized waveformData !! Z.to_nat waveIndex)) in
        this ← get;
        smoothedAmp ← smoothValue amplitude (i mod length (smoothedValues this));
        this ← get;
        let radiusMultiplier := 1 + smoothedAmp * amplification (config this) in
        let radius := baseRadius * radiusMultiplier in
        let angle := INR i * angleStep + rotation this in
        let x := centerX + cos angle * radius in
        let y := centerY + sin angle * radius in
        let color := calculateWaveColor (colorScheme (config this)) smoothedAmp in
        mret {| pt_x := x; pt_y := y; pt_amplitude := smoothedAmp;
                pt_color := color |});
      this ← get;
      let centerGlow :=
        {| glow_intensity := Rmin (avgAmplitude * 2) 1;
           glow_color := calculateCenterGlowColor avgAmplitude |} in
      mret {| cv_points := points; cv_rotation := rotation this;
              cv_centerGlow := centerGlow |}
  end.

(** [initializeArrays()] *)
Definition initializeArrays : M unit :=
  this ← get;
  let size := barCount (config this) in
  _ ← modify (set_peakValues (fun _ => replicate size 0));
  _ ← modify (set_peakHoldFrames (fun _ => replicate size 0%nat));
  modify (set_smoothedValues (fun _ => replicate size 0)).

(** [new WMPVisualizationManager(config)] *)
Definition new_manager (config : VisualizationConfig) : Manager :=
  {| config := config;
     peakValues := replicate (barCount config) 0;
     peakHoldFrames := replicate (barCount config) 0%nat;
     smoothedValues := replicate (barCount config) 0;
     rotation := 0 |}.

(** [Partial<VisualizationConfig>] *)
Record PartialConfig := {
  p_barCount : option nat;
  p_colorScheme : option ColorScheme;
  p_peakHold : option bool;
  p_peakDecay : option R;
  p_smoothing : option R;
  p_amplification : option R
}.

(** [{ ...config, ...newConfig }] *)
Definition merge_config (c : VisualizationConfig) (n : PartialConfig)
  : VisualizationConfig :=
  {| barCount := default (barCount c) (p_barCount n);
     colorScheme := default (colorScheme c) (p_colorScheme n);
     peakHold := default (peakHold c) (p_peakHold n);
     peakDecay := default (peakDecay c) (p_peakDecay n);
     smoothing := default (smoothing c) (p_smoothing n);
     amplification := default (amplification c) (p_amplification n) |}.

(** [updateConfig(newConfig)]: the arrays are rebuilt when the new bar
    count is truthy (non-zero) and differs from their length. *)
Definition updateConfig (newConfig : PartialConfig) : M unit :=
  _ ← modify (set_config (fun c => merge_config c newConfig));
  this ← get;
  match p_barCount newConfig with
  | Some n =>
      if bool_decide (n <> 0%nat) && bool_decide (n <> length (peakValues this))
      then initializeArrays
      else mret tt
  | None => mret tt
  end.

(** [reset()] *)
Definition reset : M unit :=
  _ ← modify (set_peakValues (fun l => replicate (length l) 0));
  _ ← modify (set_peakHoldFrames (fun l => replicate (length l) 0%nat));
  _ ← modify (set_smoothedValues (fun l => replicate (length l) 0));
  modify (set_rotation (fun _ => 0)).

(** The manager after running a method, when it returned. *)
Definition state_after {A} (m : M A) (this : Manager) : Manager :=
  match m this with
  | Returned (_, this') => this'
  | Thrown _ => this
  end.

(** ** Example configurations *)

(** Two bars, smoothing 0.8, decay 0.95. *)
Definition two_bar_config : VisualizationConfig :=
  {| barCount := 2; colorScheme := wmp; peakHold := true;
     peakDecay := 95 / 100; smoothing := 8 / 10; amplification := 1 |}.

(** Two bars with the peak display switched off. *)
Definition quiet_config : VisualizationConfig :=
  {| barCount := 2; colorScheme := modern; peakHold := false;
     peakDecay := 95 / 100; smoothing := 8 / 10; amplification := 1 |}.

(** ** Frame sequences *)

(** [n] consecutive frames, each running the method [m] once. *)
Fixpoint frames {A} (n : nat) (m : M A) : M unit :=
  match n with
  | O => mret tt
  | S n => _ ← m; frames n m
  end.

(** Frames [0] to [t] of the peak tracker, frame [k] being fed the bar
    heights [heights_at k]; the result is the peak list of frame [t]. *)
Fixpoint peaks_through (heights_at : nat -> list R) (t : nat) : M (list R) :=
  match t with
  | O => calculatePeaks (heights_at 0%nat)
  | S t' => _ ← peaks_through heights_at t'; calculatePeaks (heights_at (S t'))
  end.

(** What one pass of [calculatePeaks] does to the pair (peak value, hold
    counter) of its bar. *)
Definition peak_step (decay currentHeight : R) (p : R * nat) : R * nat :=
  if decide (currentHeight > p.1) then (currentHeight, PEAK_HOLD_FRAMES)
  else if decide (p.2 > 0)%nat then (p.1, pred p.2)
  else (p.1 * decay, p.2).

(** The manager's arrays all have [n] entries. *)
Definition sized (n : nat) (this : Manager) : Prop :=
  length (peakValues this) = n
  /\ length (peakHoldFrames this) = n
  /\ length (smoothedValues this) = n.

(** The invariant of the constructor and [updateConfig]: the arrays have
    a common length, which is the bar count unless the bar count is 0. *)
Definition wf (this : Manager) : Prop :=
  sized (length (peakValues this)) this
  /\ (barCount (config this) = length (peakValues this)
      \/ barCount (config this) = 0%nat).

(** ** The bars pipeline on one snapshot *)

(** A 1024-bin snapshot that is 0 everywhere except for 255 at [bin]. *)
Definition single_bin_snapshot (bin : nat) : Uint8Array :=
  <[bin := Init.Byte.xff]> (replicate 1024 Init.Byte.x00).

(** One frame of the bars pipeline: the engine maps the snapshot (its own
    peak list starting at 0) and the manager lays out the bars. *)
Definition analyse_bars (snapshot : Uint8Array) : M BarVisualizationData :=
  generateBarsVisualization
    (getFrequencyData (Some snapshot) (replicate FREQUENCY_BANDS 0)).1.

(** 64 bars and smoothing 1.0 (no smoothing). *)
Definition unsmoothed_config : VisualizationConfig :=
  {| barCount := 64; colorScheme := wmp; peakHold := true;
     peakDecay := 95 / 100; smoothing := 1; amplification := 1 |}.

(** The value [calculateBarHeights] leaves in the smoother for bar [j]. *)
Definition smoothed_height (logarithmicData : list R) (this : Manager) (j : nat)
  : R :=
  smoothedValues this !!! j
  + (default 0 (logarithmicData !! j) * amplification (config this)
     - smoothedValues this !!! j) * smoothing (config this).

(** The manager is set up for the scenario: 64 bars over arrays of 64
    entries, smoothing 1.0 and a positive amplification. *)
Definition scenario_ready (this : Manager) : Prop :=
  barCount (config this) = 64%nat
  /\ smoothing (config this) = 1
  /\ 0 < amplification (config this)
  /\ sized 64 this.

(** Bar heights of a step input on bar 0 of two bars: 1 at frame 0 and 0
    at every later frame. *)
Definition step_heights (frame : nat) : list R :=
  match frame with
  | O => [1; 0]
  | S _ => [0; 0]
  end.

(** A one-sample waveform snapshot at byte 32, that is at amplitude
    [(32 - 128) / 128 = -0.75]. *)
Definition loud_waveform : option WaveformData :=
  getWaveformData (Some [Init.Byte.x20]).

(** ** Channels of a colour *)

(** The largest and the smallest of the three channels. *)
Definition max_channel (c : Color) : R := Rmax (Rmax (red c) (green c)) (blue c).
Definition min_channel (c : Color) : R := Rmin (Rmin (red c) (green c)) (blue c).

(** ** Proof steps for the colour sectors *)

(** Settle every sector test that linear arithmetic decides. *)
Ltac decide_sectors :=
  repeat first [ rewrite bool_decide_eq_true_2 by lra
               | rewrite bool_decide_eq_false_2 by lra ];
  cbn [andb].

(** Open [color_in_range] into its six bounds. *)
Ltac split_channels :=
  unfold color_in_range, red, green, blue; cbn [fst snd].

(** * Properties *)

(** ** Facts about the numeric primitives *)

Lemma Ztrunc_nonneg (x : R) : 0 <= x -> Ztrunc x = Zfloor x.
Proof. intros Hx. unfold Ztrunc. case_decide; [reflexivity | lra]. Qed.

Lemma Ztrunc_neg (x : R) : x < 0 -> Ztrunc x = (- Zfloor (- x))%Z.
Proof. intros Hx. unfold Ztrunc. case_decide; [lra | reflexivity]. Qed.

(** For a dividend in [[0, b)] the remainder is the dividend. *)
Lemma js_rem_small (a b : R) : 0 <= a < b -> js_rem a b = a.
Proof.
  intros [Ha Hb]. unfold js_rem.
  assert (Hq : 0 <= a / b < 1).
  { assert (Hi : 0 < / b) by (apply Rinv_0_lt_compat; lra).
    split.
    - unfold Rdiv. apply Rmult_le_pos; lra.
    - apply (Rmult_lt_reg_r b); [lra |].
      unfold Rdiv. rewrite Rmult_assoc, Rinv_l by lra. lra. }
  rewrite Ztrunc_nonneg by lra.
  rewrite (Zfloor_eq 0 (a / b)) by (simpl; lra).
  simpl. lra.
Qed.

(** ** Running methods *)

Lemma bind_Returned {A B} (m : M A) (f : A -> M B) this a this' :
  m this = Returned (a, this') -> (m ≫= f) this = f a this'.
Proof. intros H. unfold mbind, M_bind. rewrite H. reflexivity. Qed.

(** A loop whose body returns a value without touching [this]. *)
Lemma for_push_pure {A} (f : nat -> A) (l : list nat) this :
  mapM (fun i => mret (f i) : M A) l this = Returned (map f l, this).
Proof.
  induction l as [|i l IH]; [reflexivity |].
  cbn [mapM]. unfold mbind, M_bind, mret, M_ret in *. rewrite IH. reflexivity.
Qed.

(** A loop returns when every pass of its body does, with one value per
    pass. *)
Lemma for_push_returns {A} (body : nat -> M A) (l : list nat) this :
  (forall i s, exists a s', body i s = Returned (a, s')) ->
  exists out this', mapM body l this = Returned (out, this')
                    /\ length out = length l.
Proof.
  intros Hbody. revert this.
  induction l as [|i l IH]; intros this.
  - exists [], this. split; reflexivity.
  - destruct (Hbody i this) as (a & s1 & Ha).
    destruct (IH s1) as (out & s2 & Hout & Hlen).
    exists (a :: out), s2. split; [| simpl; congruence].
    cbn [mapM]. rewrite (bind_Returned _ _ _ _ _ Ha).
    rewrite (bind_Returned _ _ _ _ _ Hout). reflexivity.
Qed.

(** ** The temporal smoother *)

Lemma smoothValue_out_of_range (newValue : R) (index : nat) (this : Manager) :
  (index >= length (smoothedValues this))%nat ->
  smoothValue newValue index this = Returned (newValue, this).
Proof.
  intros Hge. unfold smoothValue, mbind, M_bind, get.
  case_decide; [reflexivity | lia].
Qed.

Lemma smoothValue_in_range (newValue : R) (index : nat) (this : Manager) :
  (index < length (smoothedValues this))%nat ->
  smoothValue newValue index this =
    let oldValue := smoothedValues this !!! index in
    let smoothed := oldValue + (newValue - oldValue) * smoothing (config this) in
    Returned (smoothed, set_smoothedValues <[index := smoothed]> this).
Proof.
  intros Hlt. unfold smoothValue, mbind, M_bind, get.
  case_decide; [lia | reflexivity].
Qed.

Lemma smoothValue_returns (newValue : R) (index : nat) (this : Manager) :
  exists a this', smoothValue newValue index this = Returned (a, this').
Proof.
  destruct (decide (index < length (smoothedValues this))%nat).
  - rewrite smoothValue_in_range by assumption. eauto.
  - rewrite smoothValue_out_of_range by lia. eauto.
Qed.

(** C7, as the code has it: an index at or past the end of the smoother's
    state array raises nothing; the call returns the raw value itself and
    leaves every field of the manager as it was. *)
Theorem smoothValue_past_end_returns_input (newValue : R) (index : nat)
  (this : Manager) :
  (index >= length (smoothedValues this))%nat ->
  smoothValue newValue index this = Returned (newValue, this)
  /\ smoothValue newValue index this <> Thrown IndexOutOfBounds.
Proof.
  intros Hge. rewrite smoothValue_out_of_range by assumption.
  split; [reflexivity | discriminate].
Qed.

Lemma smoothValue_past_end_returns_input_witness :
  (2 >= length (smoothedValues (new_manager two_bar_config)))%nat
  /\ smoothValue 1 2 (new_manager two_bar_config)
     = Returned (1, new_manager two_bar_config).
Proof.
  split; [simpl; lia |].
  apply (smoothValue_past_end_returns_input 1 2 (new_manager two_bar_config)).
  simpl; lia.
Defined.

(** C7 fails as stated: index 2 is outside a two-entry state array, and
    the call returns a value instead of failing with [IndexOutOfBounds]. *)
Lemma smoothValue_out_of_range_does_not_fail :
  ~ (forall (newValue : R) (index : nat) (this : Manager),
        (index >= length (smoothedValues this))%nat ->
        smoothValue newValue index this = Thrown IndexOutOfBounds).
Proof.
  intros H.
  specialize (H 1 2%nat (new_manager two_bar_config)).
  rewrite smoothValue_out_of_range in H by (simpl; lia).
  specialize (H ltac:(simpl; lia)). discriminate H.
Qed.

(** ** Silence frames *)

Lemma generateSilentBars_eq (this : Manager) :
  generateSilentBars this =
    Returned ({| bv_heights := replicate (barCount (config this)) 0;
                 bv_peaks := replicate (barCount (config this)) 0;
                 bv_colors := replicate (barCount (config this))
                                (2 / 10, 2 / 10, 2 / 10) |}, this).
Proof. reflexivity. Qed.

Lemma generateSilentCircular_returns (width height : R) (this : Manager) :
  exists points,
    generateSilentCircular width height this =
      Returned ({| cv_points := points; cv_rotation := 0;
                   cv_centerGlow := {| glow_intensity := 0;
                                       glow_color := (0, 0, 0) |} |}, this)
    /\ length points = 256%nat
    /\ Forall (fun p => pt_amplitude p = 0) points.
Proof.
  unfold generateSilentCircular, for_push.
  eexists. split; [| split].
  - erewrite bind_Returned by apply for_push_pure. reflexivity.
  - rewrite length_map, length_seq. reflexivity.
  - apply Forall_forall. intros p Hp.
    apply list_elem_of_In, in_map_iff in Hp.
    destruct Hp as (i & <- & _). reflexivity.
Qed.

(** C8: a bars call with a null snapshot returns, whatever the state of
    the manager, a frame of [barCount] entries whose heights and peaks are
    all 0, and a circular call with a null waveform returns a frame whose
    rotation is exactly 0. *)
Theorem silence_frame_outputs (this : Manager) (width height : R) :
  (exists frame this',
      generateBarsVisualization None this = Returned (frame, this')
      /\ length (bv_heights frame) = barCount (config this)
      /\ length (bv_peaks frame) = barCount (config this)
      /\ Forall (fun h => h = 0) (bv_heights frame)
      /\ Forall (fun p => p = 0) (bv_peaks frame))
  /\ (exists frame this',
         generateCircularVisualization None width height this
           = Returned (frame, this')
         /\ cv_rotation frame = 0).
Proof.
  split.
  - eexists _, _. split; [apply generateSilentBars_eq |]. cbn.
    rewrite !length_replicate.
    repeat split; apply Forall_forall; intros x Hx;
      apply elem_of_replicate in Hx; tauto.
  - destruct (generateSilentCircular_returns width height this)
      as (points & Heq & _).
    eexists _, _. split; [exact Heq | reflexivity].
Qed.

(** C10: a silence frame changes no field of the manager (smoothed values,
    peak values, hold counters, rotation), so the next call finds the
    state it had before the silence. *)
Theorem silence_frame_preserves_state (this : Manager) (width height : R) :
  (exists frame, generateBarsVisualization None this = Returned (frame, this))
  /\ (exists frame,
         generateCircularVisualization None width height this
           = Returned (frame, this))
  /\ (forall frequencyData,
         (_ ← generateBarsVisualization None;
          generateBarsVisualization frequencyData) this
         = generateBarsVisualization frequencyData this)
  /\ (forall waveformData width' height',
         (_ ← generateCircularVisualization None width height;
          generateCircularVisualization waveformData width' height') this
         = generateCircularVisualization waveformData width' height' this).
Proof.
  destruct (generateSilentCircular_returns width height this)
    as (points & Heq & _).
  split; [| split; [| split]].
  - eexists. apply generateSilentBars_eq.
  - eexists. exact Heq.
  - intros fd.
    rewrite (bind_Returned _ _ _ _ _ (generateSilentBars_eq this)). reflexivity.
  - intros wd w' h'. rewrite (bind_Returned _ _ _ _ _ Heq). reflexivity.
Qed.

(** After [n] frames with the constant input [v], entry [index] of the
    smoother is [v + (s0 - v) * (1 - factor)^n], where [s0] is its value
    before the first frame. *)
Lemma frames_smoothValue (v : R) (index n : nat) (this : Manager) :
  (index < length (smoothedValues this))%nat ->
  exists this',
    frames n (smoothValue v index) this = Returned (tt, this')
    /\ config this' = config this
    /\ length (smoothedValues this') = length (smoothedValues this)
    /\ smoothedValues this' !!! index =
         v + (smoothedValues this !!! index - v)
             * (1 - smoothing (config this)) ^ n.
Proof.
  revert this. induction n as [|n IH]; intros this Hlt.
  - exists this. repeat split; simpl; lra.
  - pose proof (smoothValue_in_range v index this Hlt) as Hstep.
    cbv zeta in Hstep.
    set (s1 := set_smoothedValues _ this) in Hstep.
    assert (Hlen1 : length (smoothedValues s1) = length (smoothedValues this))
      by (unfold s1; simpl; apply length_insert).
    destruct (IH s1) as (this' & Hrun & Hcfg & Hlen & Hval); [lia |].
    exists this'. split; [| split; [| split]].
    + cbn [frames]. rewrite (bind_Returned _ _ _ _ _ Hstep). exact Hrun.
    + rewrite Hcfg. reflexivity.
    + lia.
    + rewrite Hval. unfold s1 at 1 2. cbn [smoothedValues set_smoothedValues config].
      rewrite list_lookup_total_insert_eq by assumption.
      simpl. ring.
Qed.

(** C9: for an index inside the state array and a smoothing factor in
    (0,1], the smoothed value under a constant input [v] converges to [v],
    and a smoother already at [v] returns [v] and keeps its state. *)
Theorem smoother_steady_state (v : R) (index : nat) (this : Manager) :
  (index < length (smoothedValues this))%nat ->
  0 < smoothing (config this) <= 1 ->
  Un_cv (fun n =>
           smoothedValues (state_after (frames n (smoothValue v index)) this)
             !!! index) v
  /\ (smoothedValues this !!! index = v ->
      smoothValue v index this = Returned (v, this)).
Proof.
  intros Hlt [Hf0 Hf1]. split.
  - intros eps Heps.
    set (d := Rabs (smoothedValues this !!! index - v)).
    assert (Hd : 0 <= d) by apply Rabs_pos.
    assert (Hq : Rabs (1 - smoothing (config this)) < 1).
    { apply Rabs_def1; lra. }
    assert (Hy : 0 < eps / (d + 1)).
    { apply Rdiv_lt_0_compat; lra. }
    destruct (pow_lt_1_zero _ Hq _ Hy) as [N HN].
    exists N. intros n Hn.
    destruct (frames_smoothValue v index n this Hlt)
      as (this' & Hrun & _ & _ & Hval).
    unfold state_after. rewrite Hrun, Hval.
    unfold R_dist.
    replace (v + (smoothedValues this !!! index - v)
                 * (1 - smoothing (config this)) ^ n - v)
      with ((smoothedValues this !!! index - v)
            * (1 - smoothing (config this)) ^ n) by ring.
    rewrite Rabs_mult. fold d.
    specialize (HN n Hn).
    assert (Hp : 0 <= Rabs ((1 - smoothing (config this)) ^ n))
      by apply Rabs_pos.
    apply Rle_lt_trans with ((d + 1) * Rabs ((1 - smoothing (config this)) ^ n)).
    + apply Rmult_le_compat_r; lra.
    + apply Rlt_le_trans with ((d + 1) * (eps / (d + 1))).
      * apply Rmult_lt_compat_l; lra.
      * right. field. lra.
  - intros Heq. rewrite smoothValue_in_range by assumption. cbv zeta.
    rewrite Heq.
    replace (v + (v - v) * smoothing (config this)) with v by ring.
    f_equal. f_equal.
    destruct this as [c pv ph sv r]. unfold set_smoothedValues. simpl in *.
    f_equal. apply list_insert_id.
    rewrite <- Heq. apply list_lookup_lookup_total_lt. assumption.
Qed.

Lemma smoother_steady_state_witness :
  Un_cv (fun n =>
           smoothedValues
             (state_after (frames n (smoothValue 1 1)) (new_manager two_bar_config))
             !!! 1%nat) 1
  /\ (smoothedValues (new_manager two_bar_config) !!! 1%nat = 1 ->
      smoothValue 1 1 (new_manager two_bar_config)
      = Returned (1, new_manager two_bar_config)).
Proof.
  apply (smoother_steady_state 1 1 (new_manager two_bar_config)).
  - simpl. lia.
  - simpl. lra.
Defined.

(** ** The peak tracker *)

Lemma set_peaks_id (this : Manager) (i : nat) :
  (i < length (peakValues this))%nat ->
  set_peakValues <[i := peakValues this !!! i]> this = this.
Proof.
  intros Hi. destruct this as [c pv ph sv r]. unfold set_peakValues. simpl in *.
  f_equal. apply list_insert_id, list_lookup_lookup_total_lt, Hi.
Qed.

Lemma set_hold_id (this : Manager) (i : nat) :
  (i < length (peakHoldFrames this))%nat ->
  set_peakHoldFrames <[i := peakHoldFrames this !!! i]> this = this.
Proof.
  intros Hi. destruct this as [c pv ph sv r]. unfold set_peakHoldFrames.
  simpl in *. f_equal. apply list_insert_id, list_lookup_lookup_total_lt, Hi.
Qed.

(** One pass writes the stepped pair of its bar and reports the new peak. *)
Lemma calculatePeaks_pass_eq (heights : list R) (i : nat) (this : Manager) :
  (i < length (peakValues this))%nat ->
  (i < length (peakHoldFrames this))%nat ->
  let p := peak_step (peakDecay (config this)) (heights !!! i)
             (peakValues this !!! i, peakHoldFrames this !!! i) in
  calculatePeaks_pass heights i this =
    Returned (if peakHold (config this) then p.1 else 0,
              set_peakHoldFrames <[i := p.2]> (set_peakValues <[i := p.1]> this)).
Proof.
  intros Hpv Hph. unfold calculatePeaks_pass, peak_step.
  cbn [fst snd]. unfold mbind, M_bind, get, modify, mret, M_ret.
  destruct (decide (heights !!! i > peakValues this !!! i)) as [Hgt|Hle].
  - cbn [fst snd config set_peakValues set_peakHoldFrames peakValues].
    rewrite list_lookup_total_insert_eq by assumption. reflexivity.
  - destruct (decide (peakHoldFrames this !!! i > 0)%nat) as [Hhold|Hzero].
    + cbn [fst snd]. rewrite set_peaks_id by assumption. reflexivity.
    + cbn [fst snd]. cbn [config set_peakValues peakValues].
      rewrite list_lookup_total_insert_eq by assumption.
      replace (set_peakHoldFrames <[i := peakHoldFrames this !!! i]> _)
        with (set_peakValues
                <[i := peakValues this !!! i * peakDecay (config this)]> this);
        [reflexivity |].
      destruct this as [c pv ph sv r].
      unfold set_peakHoldFrames, set_peakValues. simpl in *.
      f_equal. symmetry.
      apply list_insert_id, list_lookup_lookup_total_lt, Hph.
Qed.

(** The loop of [calculatePeaks] over bars [k .. k+n-1]: each of them is
    stepped once, every other bar and every other field is untouched. *)
Lemma calculatePeaks_loop (heights : list R) (n k : nat) (this : Manager) :
  (k + n <= length (peakValues this))%nat ->
  (k + n <= length (peakHoldFrames this))%nat ->
  exists out this',
    mapM (calculatePeaks_pass heights) (seq k n) this = Returned (out, this')
    /\ length out = n
    /\ config this' = config this
    /\ smoothedValues this' = smoothedValues this
    /\ rotation this' = rotation this
    /\ length (peakValues this') = length (peakValues this)
    /\ length (peakHoldFrames this') = length (peakHoldFrames this)
    /\ forall j,
        ((k <= j < k + n)%nat ->
         (peakValues this' !!! j, peakHoldFrames this' !!! j)
           = peak_step (peakDecay (config this)) (heights !!! j)
               (peakValues this !!! j, peakHoldFrames this !!! j)
         /\ out !! (j - k)%nat
            = Some (if peakHold (config this)
                    then peakValues this' !!! j else 0))
        /\ (~ (k <= j < k + n)%nat ->
            peakValues this' !!! j = peakValues this !!! j
            /\ peakHoldFrames this' !!! j = peakHoldFrames this !!! j).
Proof.
  revert k this. induction n as [|n IH]; intros k this Hpv Hph.
  - exists [], this. repeat split; try reflexivity; lia.
  - pose proof (calculatePeaks_pass_eq heights k this ltac:(lia) ltac:(lia))
      as Hpass.
    cbv zeta in Hpass.
    set (p := peak_step _ _ _) in Hpass.
    set (s1 := set_peakHoldFrames _ _) in Hpass.
    assert (Hl1 : length (peakValues s1) = length (peakValues this))
      by (unfold s1; simpl; apply length_insert).
    assert (Hl2 : length (peakHoldFrames s1) = length (peakHoldFrames this))
      by (unfold s1; simpl; apply length_insert).
    destruct (IH (S k) s1 ltac:(lia) ltac:(lia))
      as (out & this' & Hrun & Hlen & Hcfg & Hsv & Hrot & Hlpv & Hlph & Hall).
    eexists (_ :: out), this'.
    split; [| split; [| split; [| split; [| split; [| split; [| split]]]]]].
    + cbn [seq mapM]. rewrite (bind_Returned _ _ _ _ _ Hpass).
      rewrite (bind_Returned _ _ _ _ _ Hrun). reflexivity.
    + simpl. lia.
    + rewrite Hcfg. reflexivity.
    + rewrite Hsv. reflexivity.
    + rewrite Hrot. reflexivity.
    + lia.
    + lia.
    + intros j. destruct (Hall j) as [Hin Hout].
      assert (Hk1 : peakValues s1 !!! k = p.1).
      { unfold s1. simpl. apply list_lookup_total_insert_eq. lia. }
      assert (Hk2 : peakHoldFrames s1 !!! k = p.2).
      { unfold s1. simpl. apply list_lookup_total_insert_eq. lia. }
      split.
      * intros Hj. destruct (decide (j = k)) as [->|Hne].
        -- destruct (Hall k) as [_ Hout']. destruct Hout' as [E1 E2]; [lia |].
           rewrite E1, E2, Hk1, Hk2. replace (k - k)%nat with 0%nat by lia.
           split; [symmetry; apply surjective_pairing | reflexivity].
        -- destruct Hin as [E1 E2]; [lia |].
           replace (j - k)%nat with (S (j - S k)) by lia.
           split; [| exact E2].
           rewrite E1. unfold s1. simpl.
           rewrite !list_lookup_total_insert_ne by lia. reflexivity.
      * intros Hj. destruct Hout as [E1 E2]; [lia |].
        rewrite E1, E2. unfold s1. simpl.
        rewrite !list_lookup_total_insert_ne by lia. split; reflexivity.
Qed.

(** [calculatePeaks] on a manager whose arrays cover the heights. *)
Lemma calculatePeaks_at (heights : list R) (this : Manager) :
  (length heights <= length (peakValues this))%nat ->
  (length heights <= length (peakHoldFrames this))%nat ->
  exists out this',
    calculatePeaks heights this = Returned (out, this')
    /\ length out = length heights
    /\ config this' = config this
    /\ smoothedValues this' = smoothedValues this
    /\ rotation this' = rotation this
    /\ length (peakValues this') = length (peakValues this)
    /\ length (peakHoldFrames this') = length (peakHoldFrames this)
    /\ forall j, (j < length heights)%nat ->
         (peakValues this' !!! j, peakHoldFrames this' !!! j)
           = peak_step (peakDecay (config this)) (heights !!! j)
               (peakValues this !!! j, peakHoldFrames this !!! j)
         /\ out !! j = Some (if peakHold (config this)
                             then peakValues this' !!! j else 0).
Proof.
  intros Hpv Hph.
  destruct (calculatePeaks_loop heights (length heights) 0 this
              ltac:(lia) ltac:(lia))
    as (out & this' & Hrun & Hlen & Hcfg & Hsv & Hrot & Hlpv & Hlph & Hall).
  exists out, this'. repeat (split; [assumption |]).
  intros j Hj. destruct (Hall j) as [Hin _].
  destruct Hin as [E1 E2]; [lia |].
  replace (j - 0)%nat with j in E2 by lia. split; assumption.
Qed.

Section StepResponse.

Variable cfg : VisualizationConfig.
Variable i : nat.
Variable heights_at : nat -> list R.

Hypothesis decay_rate : peakDecay cfg = 95 / 100.
Hypothesis band_in_range : (i < barCount cfg)%nat.
Hypothesis one_height_per_bar :
  forall f, length (heights_at f) = barCount cfg.
Hypothesis step_up : heights_at 0%nat !!! i = 1.
Hypothesis step_down : forall f, (1 <= f)%nat -> heights_at f !!! i = 0.

(** The pair (peak value, hold counter) of band [i] after frame [t]:
    (1, 30 - t) up to frame 30 and (0.95^(t-30), 0) from frame 30 on. *)
Lemma step_response_invariant (t : nat) :
  exists out this',
    peaks_through heights_at t (new_manager cfg) = Returned (out, this')
    /\ config this' = cfg
    /\ length (peakValues this') = barCount cfg
    /\ length (peakHoldFrames this') = barCount cfg
    /\ out !! i = Some (if peakHold cfg then peakValues this' !!! i else 0)
    /\ ((t <= 30)%nat ->
        peakValues this' !!! i = 1
        /\ peakHoldFrames this' !!! i = (30 - t)%nat)
    /\ ((30 <= t)%nat ->
        peakValues this' !!! i = (95 / 100) ^ (t - 30)
        /\ peakHoldFrames this' !!! i = 0%nat).
Proof.
  induction t as [|t IH].
  - destruct (calculatePeaks_at (heights_at 0%nat) (new_manager cfg))
      as (out & this' & Hrun & _ & Hcfg & _ & _ & Hlpv & Hlph & Hall).
    { simpl. rewrite length_replicate, one_height_per_bar. lia. }
    { simpl. rewrite length_replicate, one_height_per_bar. lia. }
    destruct (Hall i) as [Hstep Hout];
      [rewrite one_height_per_bar; exact band_in_range |].
    cbn [new_manager config peakValues peakHoldFrames]
      in Hstep, Hout, Hcfg, Hlpv, Hlph.
    rewrite !lookup_total_replicate_2, step_up in Hstep by assumption.
    unfold peak_step in Hstep. cbn [fst snd] in Hstep.
    destruct (decide (1 > 0)) as [_|Hn]; [| lra].
    injection Hstep as Hv Hh.
    exists out, this'. rewrite length_replicate in Hlpv. rewrite length_replicate in Hlph.
    repeat (split; [assumption |]).
    split; intros Ht; [split; [exact Hv | exact Hh] | lia].
  - destruct IH as (out0 & s & Hrun0 & Hcfg0 & Hlpv0 & Hlph0 & _ & Hlow & Hhigh).
    destruct (calculatePeaks_at (heights_at (S t)) s)
      as (out & this' & Hrun & _ & Hcfg & _ & _ & Hlpv & Hlph & Hall).
    { rewrite one_height_per_bar. lia. }
    { rewrite one_height_per_bar. lia. }
    destruct (Hall i) as [Hstep Hout];
      [rewrite one_height_per_bar; exact band_in_range |].
    rewrite Hcfg0 in Hstep, Hout, Hcfg.
    rewrite step_down, decay_rate in Hstep by lia.
    exists out, this'.
    split; [| split; [assumption | split; [lia | split; [lia |
              split; [assumption |]]]]].
    { cbn [peaks_through]. rewrite (bind_Returned _ _ _ _ _ Hrun0). exact Hrun. }
    unfold peak_step in Hstep. cbn [fst snd] in Hstep.
    destruct (Nat.le_gt_cases t 29) as [Hearly|Hlate].
    + destruct Hlow as [Hv Hh]; [lia |]. rewrite Hv, Hh in Hstep.
      destruct (decide (0 > 1)) as [Hn|_]; [lra |].
      destruct (decide (30 - t > 0)%nat) as [_|Hn]; [| lia].
      injection Hstep as Hv' Hh'.
      split; intros Ht.
      * split; [exact Hv' | lia].
      * assert (t = 29)%nat as -> by lia. simpl.
        split; [rewrite Hv'; lra | rewrite Hh'; reflexivity].
    + destruct Hhigh as [Hv Hh]; [lia |]. rewrite Hv, Hh in Hstep.
      assert (Hpos : 0 < (95 / 100) ^ (t - 30)) by (apply pow_lt; lra).
      destruct (decide (0 > (95 / 100) ^ (t - 30))) as [Hn|_]; [lra |].
      destruct (decide (0 > 0)%nat) as [Hn|_]; [lia |].
      injection Hstep as Hv' Hh'.
      split; intros Ht; [lia |].
      replace (S t - 30)%nat with (S (t - 30)) by lia.
      split; [rewrite Hv'; simpl; ring | exact Hh'].
Qed.

End StepResponse.

(** C1: from the zero state, with decay rate 0.95 and a band whose height
    is 1 at frame 0 and 0 at every later frame, the tracked peak of the
    band is 1 after each of the frames 0 to 30 and [0.95^k] after frame
    [30 + k], with [calculatePeaks] run once per frame; the reported peak
    is that value when [peakHold] is set (and 0 otherwise). *)
Theorem peak_tracker_step_response (cfg : VisualizationConfig) (i : nat)
  (heights_at : nat -> list R) (t : nat) :
  peakDecay cfg = 95 / 100 ->
  (i < barCount cfg)%nat ->
  (forall f, length (heights_at f) = barCount cfg) ->
  heights_at 0%nat !!! i = 1 ->
  (forall f, (1 <= f)%nat -> heights_at f !!! i = 0) ->
  exists out this',
    peaks_through heights_at t (new_manager cfg) = Returned (out, this')
    /\ ((t <= 30)%nat -> peakValues this' !!! i = 1)
    /\ (forall k, t = (30 + k)%nat -> peakValues this' !!! i = (95 / 100) ^ k)
    /\ out !! i = Some (if peakHold cfg then peakValues this' !!! i else 0).
Proof.
  intros Hdecay Hi Hlen Hup Hdown.
  destruct (step_response_invariant cfg i heights_at Hdecay Hi Hlen Hup Hdown t)
    as (out & this' & Hrun & _ & _ & _ & Hout & Hlow & Hhigh).
  exists out, this'. split; [exact Hrun |].
  split; [| split; [| exact Hout]].
  - intros Ht. apply Hlow, Ht.
  - intros k ->. destruct Hhigh as [Hv _]; [lia |].
    rewrite Hv. f_equal. lia.
Qed.

(** ** The band mapper *)

Lemma pow_lt_strict (x y : R) (n : nat) :
  0 <= x < y -> (1 <= n)%nat -> x ^ n < y ^ n.
Proof.
  intros [Hx Hxy] Hn. induction n as [|n IH]; [lia |].
  destruct n as [|n].
  - simpl. lra.
  - specialize (IH ltac:(lia)).
    assert (H0 : 0 <= x ^ S n) by (apply pow_le; exact Hx).
    change (x * x ^ S n < y * y ^ S n).
    apply Rle_lt_trans with (x * y ^ S n).
    + apply Rmult_le_compat_l; lra.
    + apply Rmult_lt_compat_r; lra.
Qed.

Lemma pow_le_iff (x y : R) (n : nat) :
  0 <= x -> 0 <= y -> (1 <= n)%nat -> (x <= y <-> x ^ n <= y ^ n).
Proof.
  intros Hx Hy Hn. split.
  - intros Hxy. apply pow_incr. lra.
  - intros Hpow. destruct (Rle_lt_dec x y) as [H|H]; [exact H |].
    pose proof (pow_lt_strict y x n (conj Hy H) Hn). lra.
Qed.

Lemma pow_lt_iff (x y : R) (n : nat) :
  0 <= x -> 0 <= y -> (1 <= n)%nat -> (x < y <-> x ^ n < y ^ n).
Proof.
  intros Hx Hy Hn. split.
  - intros Hxy. apply pow_lt_strict; [lra | exact Hn].
  - intros Hpow. destruct (Rlt_le_dec x y) as [H|H]; [exact H |].
    pose proof (pow_incr y x n (conj Hy H)). lra.
Qed.

Section LogIndex.

Variables binCount bands i : nat.
Hypothesis two_bins : (2 <= binCount)%nat.
Hypothesis one_band : (1 <= bands)%nat.

Let N : R := INR binCount.
Let x : R := Rpower N (INR i / INR bands).

Local Lemma N_ge_2 : 2 <= N.
Proof. unfold N. change 2 with (INR 2). apply le_INR, two_bins. Qed.

Local Lemma bands_pos : 0 < INR bands.
Proof. apply lt_0_INR. lia. Qed.

Local Lemma x_pos : 0 < x.
Proof. apply exp_pos. Qed.

(** [pow(N, i / bands)] raised to the power [bands] is [N^i]. *)
Local Lemma x_pow : x ^ bands = N ^ i.
Proof.
  pose proof N_ge_2. pose proof bands_pos.
  rewrite <- (Rpower_pow bands x x_pos). unfold x.
  rewrite Rpower_mult.
  replace (INR i / INR bands * INR bands) with (INR i) by (field; lra).
  apply Rpower_pow. lra.
Qed.

Local Lemma xN_pow : (x * N) ^ bands = N ^ (i + bands).
Proof. rewrite Rpow_mult_distr, x_pow, pow_add. reflexivity. Qed.

(** [1 <= pow(N, i / bands)]. *)
Local Lemma x_ge_1 : 1 <= x.
Proof.
  pose proof N_ge_2. pose proof bands_pos.
  unfold x, Rpower.
  assert (Hln : 0 < ln N).
  { rewrite <- ln_1. apply ln_increasing; lra. }
  assert (Hq : 0 <= INR i / INR bands).
  { unfold Rdiv. apply Rmult_le_pos; [apply pos_INR |].
    left. apply Rinv_0_lt_compat. lra. }
  pose proof (exp_ineq1_le (INR i / INR bands * ln N)).
  assert (0 <= INR i / INR bands * ln N) by (apply Rmult_le_pos; lra).
  lra.
Qed.

(** The number whose floor is [logIndex], against an integer [k]. *)
Local Lemma scaled_le (k : Z) :
  IZR k <= (x - 1) / (N - 1) * N <-> IZR k * (N - 1) + N <= x * N.
Proof.
  pose proof N_ge_2.
  replace ((x - 1) / (N - 1) * N)
    with (IZR k + (x * N - (IZR k * (N - 1) + N)) / (N - 1)) by (field; lra).
  assert (Hi : 0 < / (N - 1)) by (apply Rinv_0_lt_compat; lra).
  unfold Rdiv. split; intros H1.
  - assert (0 <= (x * N - (IZR k * (N - 1) + N)) * / (N - 1)) by lra.
    destruct (Rle_lt_dec (IZR k * (N - 1) + N) (x * N)) as [?|Hc]; [assumption |].
    assert ((x * N - (IZR k * (N - 1) + N)) * / (N - 1) < 0).
    { rewrite <- (Rmult_0_l (/ (N - 1))). apply Rmult_lt_compat_r; lra. }
    lra.
  - assert (0 <= (x * N - (IZR k * (N - 1) + N)) * / (N - 1)).
    { apply Rmult_le_pos; lra. }
    lra.
Qed.

Local Lemma scaled_lt (k : Z) :
  (x - 1) / (N - 1) * N < IZR k <-> x * N < IZR k * (N - 1) + N.
Proof.
  pose proof (scaled_le k) as [H1 H2]. split; intros H.
  - destruct (Rlt_le_dec (x * N) (IZR k * (N - 1) + N)) as [?|Hc];
      [assumption |]. specialize (H2 Hc). lra.
  - destruct (Rlt_le_dec ((x - 1) / (N - 1) * N) (IZR k)) as [?|Hc];
      [assumption |]. specialize (H1 Hc). lra.
Qed.

Lemma logIndex_nonneg : (0 <= logIndex binCount bands i)%Z.
Proof.
  unfold logIndex. fold N. fold x. apply Zfloor_lub.
  apply scaled_le. pose proof N_ge_2. pose proof x_ge_1. nra.
Qed.

(** [logIndex] is decided by integer arithmetic. *)
Lemma logIndex_iff (k : Z) :
  logIndex binCount bands i = k <-> logIndex_check binCount bands i k = true.
Proof.
  pose proof N_ge_2 as HN. pose proof x_pos as Hx.
  assert (HNz : N = IZR (Z.of_nat binCount)) by apply INR_IZR_INZ.
  assert (Hpoly : forall z : Z,
             IZR ((z * (Z.of_nat binCount - 1) + Z.of_nat binCount)
                  ^ Z.of_nat bands)
             = (IZR z * (N - 1) + N) ^ bands).
  { intros z. rewrite <- pow_IZR, plus_IZR, mult_IZR, minus_IZR, <- HNz.
    reflexivity. }
  assert (Htarget : IZR (Z.of_nat binCount ^ Z.of_nat (i + bands))
                    = (x * N) ^ bands).
  { rewrite <- pow_IZR, <- HNz. symmetry. apply xN_pow. }
  assert (HxN : 0 <= x * N) by nra.
  unfold logIndex_check. cbv zeta.
  rewrite !andb_true_iff, Z.leb_le, Z.leb_le, Z.ltb_lt.
  change (logIndex binCount bands i)
    with (Zfloor ((x - 1) / (N - 1) * N)).
  assert (Hnext : forall z : Z, IZR (z + 1) = IZR z + 1)
    by (intros z; apply plus_IZR).
  split.
  - intros Hk.
    assert (H0 : (0 <= k)%Z).
    { rewrite <- Hk. exact logIndex_nonneg. }
    assert (Hk0 : 0 <= IZR k) by (apply IZR_le in H0; exact H0).
    destruct (Zfloor_bound ((x - 1) / (N - 1) * N)) as [Hlo Hhi].
    rewrite Hk in Hlo, Hhi. rewrite <- Hnext in Hhi.
    apply scaled_le in Hlo. apply scaled_lt in Hhi.
    split; [split; [exact H0 |] |].
    + apply le_IZR. rewrite Hpoly, Htarget.
      apply pow_incr. split; [nra | exact Hlo].
    + apply lt_IZR. rewrite Hpoly, Htarget.
      apply pow_lt_strict; [split; [exact HxN | exact Hhi] | exact one_band].
  - intros [[H0 Hle] Hlt].
    assert (Hk0 : 0 <= IZR k) by (apply IZR_le in H0; exact H0).
    apply IZR_le in Hle. apply IZR_lt in Hlt.
    rewrite Hpoly, Htarget in Hle. rewrite Hpoly, Htarget in Hlt.
    apply Zfloor_eq. split.
    + apply scaled_le.
      apply (pow_le_iff _ _ bands); [nra | exact HxN | exact one_band | exact Hle].
    + rewrite <- Hnext. apply scaled_lt.
      apply (pow_lt_iff _ _ bands);
        [exact HxN | rewrite Hnext; nra | exact one_band | exact Hlt].
Qed.

End LogIndex.

Lemma byte_value_range (b : Init.Byte.byte) : 0 <= byte_value b <= 255.
Proof.
  unfold byte_value. pose proof (Strings.Byte.to_N_bounded b) as Hb.
  split.
  - apply IZR_le. lia.
  - apply IZR_le. lia.
Qed.

(** Inside the array the typed-array read is the entry itself. *)
Lemma byte_at_in_range (a : Uint8Array) (k : Z) :
  (0 <= k < Z.of_nat (length a))%Z ->
  exists b, a !! Z.to_nat k = Some b /\ byte_at a k = byte_value b.
Proof.
  intros [Hlo Hhi]. unfold byte_at.
  destruct (lookup_lt_is_Some_2 a (Z.to_nat k) ltac:(lia)) as [b Hb].
  exists b. split; [exact Hb |].
  case_decide; [lia |]. rewrite Hb. reflexivity.
Qed.

Lemma binIndex_range (binCount bands i : nat) :
  (2 <= binCount)%nat -> (1 <= bands)%nat ->
  (0 <= binIndex binCount bands i < Z.of_nat binCount)%Z.
Proof.
  intros HN HB. pose proof (logIndex_nonneg binCount bands i HN HB).
  unfold binIndex. lia.
Qed.

(** Band [i] of the mapper's output is the snapshot's entry at the band's
    bin index, divided by 255. *)
Lemma convertToLogarithmic_lookup (bands : nat) (frequencyData : Uint8Array)
  (i : nat) :
  (2 <= length frequencyData)%nat -> (i < bands)%nat ->
  exists b,
    frequencyData !! Z.to_nat (binIndex (length frequencyData) bands i) = Some b
    /\ convertToLogarithmic bands frequencyData !! i = Some (byte_value b / 255).
Proof.
  intros HN Hi.
  destruct (byte_at_in_range frequencyData
              (binIndex (length frequencyData) bands i)) as (b & Hb & Hat).
  { apply binIndex_range; lia. }
  exists b. split; [exact Hb |].
  unfold convertToLogarithmic. cbv zeta.
  rewrite list_lookup_fmap, lookup_seq_lt by exact Hi.
  simpl. rewrite Hat. reflexivity.
Qed.

(** C4: for a snapshot of at least two bins the band mapper returns
    exactly [bands] values, each in [0,1]. *)
Theorem band_mapper_output_shape (bands : nat) (frequencyData : Uint8Array) :
  (1 <= bands)%nat ->
  (2 <= length frequencyData)%nat ->
  length (convertToLogarithmic bands frequencyData) = bands
  /\ Forall (fun v => 0 <= v <= 1) (convertToLogarithmic bands frequencyData).
Proof.
  intros HB HN. split.
  - unfold convertToLogarithmic. rewrite length_map, length_seq. reflexivity.
  - apply Forall_lookup. intros i v Hv.
    assert (Hi : (i < bands)%nat).
    { apply lookup_lt_Some in Hv. unfold convertToLogarithmic in Hv.
      rewrite length_map, length_seq in Hv. exact Hv. }
    destruct (convertToLogarithmic_lookup bands frequencyData i HN Hi)
      as (b & _ & Hout).
    rewrite Hout in Hv. injection Hv as <-.
    pose proof (byte_value_range b). lra.
Qed.

Lemma band_mapper_output_shape_witness :
  length (convertToLogarithmic 3 [Init.Byte.x10; Init.Byte.xff]) = 3%nat
  /\ Forall (fun v => 0 <= v <= 1)
       (convertToLogarithmic 3 [Init.Byte.x10; Init.Byte.xff]).
Proof.
  apply (band_mapper_output_shape 3 [Init.Byte.x10; Init.Byte.xff]).
  - lia.
  - simpl. lia.
Defined.

Lemma logIndex_1024_64_first : logIndex 1024 64 0 = 0%Z.
Proof. apply logIndex_iff; [lia | lia |]. vm_compute. reflexivity. Qed.

Lemma logIndex_1024_64_last : logIndex 1024 64 63 = 918%Z.
Proof. apply logIndex_iff; [lia | lia |]. vm_compute. reflexivity. Qed.

(** C2, as the code has it: with 1024 bins and 64 bands, band 0 reads
    bin 0 and band 63 reads bin 918; the clamp to [0, 1023] changes
    neither index. *)
Theorem band_mapper_boundary_bins :
  logIndex 1024 64 0 = 0%Z
  /\ Z.max 0 (binIndex 1024 64 0) = 0%Z
  /\ logIndex 1024 64 63 = 918%Z
  /\ Z.max 0 (binIndex 1024 64 63) = 918%Z.
Proof.
  unfold binIndex. rewrite logIndex_1024_64_first, logIndex_1024_64_last.
  repeat split; reflexivity.
Qed.

(** C2 fails as stated: the clamped index of band 63 is not 1023. *)
Lemma band_63_does_not_read_bin_1023 :
  ~ (Z.max 0 (binIndex 1024 64 0) = 0%Z
     /\ Z.max 0 (binIndex 1024 64 63) = 1023%Z).
Proof.
  intros [_ H]. unfold binIndex in H. rewrite logIndex_1024_64_last in H.
  vm_compute in H. discriminate H.
Qed.

(** ** Bar heights *)

Lemma calculateBarHeights_pass_eq (logarithmicData : list R) (i : nat)
  (this : Manager) :
  (i < length (smoothedValues this))%nat ->
  calculateBarHeights_pass logarithmicData i this =
    Returned (Rmax 0 (Rmin 1 (smoothed_height logarithmicData this i)),
              set_smoothedValues
                <[i := smoothed_height logarithmicData this i]> this).
Proof.
  intros Hi. unfold calculateBarHeights_pass.
  unfold mbind at 1. unfold M_bind at 1. unfold get at 1. cbv zeta.
  erewrite bind_Returned by (apply smoothValue_in_range; exact Hi).
  reflexivity.
Qed.

(** The loop of [calculateBarHeights] over bars [k .. k+n-1]: each of
    them is smoothed once and clamped; nothing else changes. *)
Lemma calculateBarHeights_loop (logarithmicData : list R) (n k : nat)
  (this : Manager) :
  (k + n <= length (smoothedValues this))%nat ->
  exists out this',
    mapM (calculateBarHeights_pass logarithmicData) (seq k n) this
      = Returned (out, this')
    /\ length out = n
    /\ config this' = config this
    /\ peakValues this' = peakValues this
    /\ peakHoldFrames this' = peakHoldFrames this
    /\ rotation this' = rotation this
    /\ length (smoothedValues this') = length (smoothedValues this)
    /\ forall j,
        ((k <= j < k + n)%nat ->
         smoothedValues this' !!! j = smoothed_height logarithmicData this j
         /\ out !! (j - k)%nat
            = Some (Rmax 0 (Rmin 1 (smoothed_height logarithmicData this j))))
        /\ (~ (k <= j < k + n)%nat ->
            smoothedValues this' !!! j = smoothedValues this !!! j).
Proof.
  revert k this. induction n as [|n IH]; intros k this Hlen.
  - exists [], this. repeat split; try reflexivity; lia.
  - pose proof (calculateBarHeights_pass_eq logarithmicData k this ltac:(lia))
      as Hpass.
    set (s1 := set_smoothedValues _ this) in Hpass.
    assert (Hl1 : length (smoothedValues s1) = length (smoothedValues this))
      by (unfold s1; simpl; apply length_insert).
    destruct (IH (S k) s1 ltac:(lia))
      as (out & this' & Hrun & Hout & Hcfg & Hpv & Hph & Hrot & Hl & Hall).
    eexists (_ :: out), this'.
    split; [| split; [| split; [| split; [| split; [| split; [| split]]]]]].
    + cbn [seq mapM]. rewrite (bind_Returned _ _ _ _ _ Hpass).
      rewrite (bind_Returned _ _ _ _ _ Hrun). reflexivity.
    + simpl. lia.
    + rewrite Hcfg. reflexivity.
    + rewrite Hpv. reflexivity.
    + rewrite Hph. reflexivity.
    + rewrite Hrot. reflexivity.
    + lia.
    + intros j. destruct (Hall j) as [Hin Hno].
      assert (Hother : forall j', j' <> k ->
                smoothed_height logarithmicData s1 j'
                = smoothed_height logarithmicData this j').
      { intros j' Hne. unfold smoothed_height, s1. simpl.
        rewrite !list_lookup_total_insert_ne by lia. reflexivity. }
      split.
      * intros Hj. destruct (decide (j = k)) as [->|Hne].
        -- rewrite Hno by lia. replace (k - k)%nat with 0%nat by lia.
           split; [| reflexivity].
           unfold s1. simpl. apply list_lookup_total_insert_eq. lia.
        -- destruct Hin as [E1 E2]; [lia |].
           replace (j - k)%nat with (S (j - S k)) by lia.
           rewrite Hother in E1, E2 by exact Hne.
           split; [exact E1 | exact E2].
      * intros Hj. rewrite Hno by lia. unfold s1. simpl.
        apply list_lookup_total_insert_ne. lia.
Qed.

(** A bars frame from a non-null snapshot: one height per bar, the
    smoothed and clamped band value. *)
Lemma generateBarsVisualization_heights (frequencyData : FrequencyData)
  (this : Manager) :
  (barCount (config this) <= length (smoothedValues this))%nat ->
  (barCount (config this) <= length (peakValues this))%nat ->
  (barCount (config this) <= length (peakHoldFrames this))%nat ->
  exists frame this',
    generateBarsVisualization (Some frequencyData) this = Returned (frame, this')
    /\ length (bv_heights frame) = barCount (config this)
    /\ length (bv_peaks frame) = barCount (config this)
    /\ length (bv_colors frame) = barCount (config this)
    /\ forall j, (j < barCount (config this))%nat ->
         bv_heights frame !! j
         = Some (Rmax 0 (Rmin 1 (smoothed_height
                                   (fd_logarithmic frequencyData) this j))).
Proof.
  intros Hsv Hpv Hph.
  destruct (calculateBarHeights_loop (fd_logarithmic frequencyData)
              (barCount (config this)) 0 this ltac:(lia))
    as (heights & s1 & Hrun1 & Hlen1 & Hcfg1 & Hpv1 & Hph1 & _ & _ & Hall).
  destruct (calculatePeaks_at heights s1)
    as (peaks & s2 & Hrun2 & Hlen2 & _ & _ & _ & _ & _ & _).
  { rewrite Hpv1. lia. }
  { rewrite Hph1. lia. }
  eexists _, s2. split; [| split; [| split; [| split]]].
  - unfold generateBarsVisualization.
    assert (Hheights : calculateBarHeights (fd_logarithmic frequencyData) this
                       = Returned (heights, s1)) by exact Hrun1.
    rewrite (bind_Returned _ _ _ _ _ Hheights).
    rewrite (bind_Returned _ _ _ _ _ Hrun2).
    unfold calculateBarColors at 1.
    unfold mbind at 1. unfold M_bind at 1. unfold get at 1.
    unfold mbind at 1. unfold M_bind at 1. unfold for_push.
    rewrite for_push_pure. reflexivity.
  - exact Hlen1.
  - cbn. lia.
  - cbn. rewrite length_map, length_seq. exact Hlen1.
  - intros j Hj. cbn. destruct (Hall j) as [Hin _].
    destruct Hin as [_ E]; [lia |].
    replace (j - 0)%nat with j in E by lia. exact E.
Qed.

(** ** One frame on a single-bin snapshot *)

Lemma no_band_reads_bin_512 (j : nat) :
  (j < 64)%nat -> binIndex 1024 64 j <> 512%Z.
Proof.
  intros Hj Heq.
  assert (Hall : forallb (fun j => negb (logIndex_check 1024 64 j 512))
                   (seq 0 64) = true) by (vm_compute; reflexivity).
  rewrite forallb_forall in Hall.
  specialize (Hall j ltac:(apply in_seq; lia)).
  assert (Hlog : logIndex 1024 64 j = 512%Z) by (unfold binIndex in Heq; lia).
  apply logIndex_iff in Hlog; [| lia | lia].
  rewrite Hlog in Hall. discriminate Hall.
Qed.

Lemma only_band_58_reads_bin_534 (j : nat) :
  (j < 64)%nat -> (binIndex 1024 64 j = 534%Z <-> j = 58%nat).
Proof.
  intros Hj.
  assert (Hall : forallb (fun j => Bool.eqb (logIndex_check 1024 64 j 534)
                                     (j =? 58)%nat)
                   (seq 0 64) = true) by (vm_compute; reflexivity).
  rewrite forallb_forall in Hall.
  specialize (Hall j ltac:(apply in_seq; lia)).
  apply Bool.eqb_prop in Hall.
  assert (Hbin : binIndex 1024 64 j = 534%Z <-> logIndex 1024 64 j = 534%Z)
    by (unfold binIndex; lia).
  rewrite Hbin, (logIndex_iff 1024 64 j ltac:(lia) ltac:(lia)), Hall.
  apply Nat.eqb_eq.
Qed.

(** The band values of a single-bin snapshot: 1 for the bands that read
    the bin, 0 for the others. *)
Lemma single_bin_band_value (bin j : nat) :
  (bin < 1024)%nat -> (j < 64)%nat ->
  convertToLogarithmic 64 (single_bin_snapshot bin) !! j
  = Some (if decide (binIndex 1024 64 j = Z.of_nat bin) then 1 else 0).
Proof.
  intros Hbin Hj.
  assert (Hlen : length (single_bin_snapshot bin) = 1024%nat).
  { unfold single_bin_snapshot. rewrite length_insert, length_replicate.
    reflexivity. }
  destruct (convertToLogarithmic_lookup 64 (single_bin_snapshot bin) j)
    as (b & Hb & Hout); [lia | exact Hj |].
  rewrite Hout. rewrite Hlen in Hb.
  pose proof (binIndex_range 1024 64 j ltac:(lia) ltac:(lia)) as Hrange.
  unfold single_bin_snapshot in Hb.
  f_equal. case_decide as Hidx.
  - rewrite Hidx, Nat2Z.id in Hb.
    rewrite list_lookup_insert_eq in Hb
      by (rewrite length_replicate; exact Hbin).
    injection Hb as <-. unfold byte_value. simpl. lra.
  - rewrite list_lookup_insert_ne in Hb by lia.
    apply lookup_replicate in Hb as [-> _]. unfold byte_value. simpl. lra.
Qed.

(** Without smoothing the height of a bar is its band value times the
    amplification, clamped to [0,1]. *)
Lemma single_bin_heights (bin : nat) (this : Manager) :
  (bin < 1024)%nat ->
  scenario_ready this ->
  exists frame this',
    analyse_bars (single_bin_snapshot bin) this = Returned (frame, this')
    /\ length (bv_heights frame) = 64%nat
    /\ forall j, (j < 64)%nat ->
         bv_heights frame !! j
         = Some (if decide (binIndex 1024 64 j = Z.of_nat bin)
                 then Rmin 1 (amplification (config this)) else 0).
Proof.
  intros Hbin (Hbars & Hsmooth & Hamp & Hpv & Hph & Hsv).
  destruct (generateBarsVisualization_heights
              {| fd_raw := single_bin_snapshot bin;
                 fd_logarithmic :=
                   convertToLogarithmic FREQUENCY_BANDS (single_bin_snapshot bin);
                 fd_peaks :=
                   updatePeaks
                     (convertToLogarithmic FREQUENCY_BANDS
                        (single_bin_snapshot bin))
                     (replicate FREQUENCY_BANDS 0) |} this)
    as (frame & this' & Hrun & Hlen & _ & _ & Hall); [lia | lia | lia |].
  exists frame, this'. split; [exact Hrun |].
  split; [lia |].
  intros j Hj. rewrite Hall by lia. f_equal.
  cbn [fd_logarithmic]. unfold smoothed_height, FREQUENCY_BANDS.
  rewrite single_bin_band_value by assumption.
  rewrite Hsmooth. cbn [default].
  case_decide.
  - replace (smoothedValues this !!! j
             + (1 * amplification (config this) - smoothedValues this !!! j) * 1)
      with (amplification (config this)) by ring.
    unfold Rmax, Rmin. repeat destruct (Rle_dec _ _); lra.
  - replace (smoothedValues this !!! j
             + (0 * amplification (config this) - smoothedValues this !!! j) * 1)
      with 0 by ring.
    unfold Rmax, Rmin. repeat destruct (Rle_dec _ _); lra.
Qed.

(** With the 255 at bin 512 every bar has height 0. *)
Lemma single_bin_512_heights (this : Manager) :
  scenario_ready this ->
  exists frame this',
    analyse_bars (single_bin_snapshot 512) this = Returned (frame, this')
    /\ length (bv_heights frame) = 64%nat
    /\ Forall (fun h => h = 0) (bv_heights frame).
Proof.
  intros Hready.
  destruct (single_bin_heights 512 this ltac:(lia) Hready)
    as (frame & this' & Hrun & Hlen & Hall).
  exists frame, this'. split; [exact Hrun |]. split; [exact Hlen |].
  apply Forall_lookup. intros j h Hh.
  assert (Hj : (j < 64)%nat) by (apply lookup_lt_Some in Hh; lia).
  rewrite Hall in Hh by exact Hj. injection Hh as <-.
  case_decide as Hidx; [| reflexivity].
  exfalso. exact (no_band_reads_bin_512 j Hj Hidx).
Qed.

(** With the 255 at bin 534 bar 58, and no other, has a height above 0. *)
Lemma single_bin_534_heights (this : Manager) :
  scenario_ready this ->
  exists frame this',
    analyse_bars (single_bin_snapshot 534) this = Returned (frame, this')
    /\ length (bv_heights frame) = 64%nat
    /\ forall j h, bv_heights frame !! j = Some h -> (h > 0 <-> j = 58%nat).
Proof.
  intros Hready.
  destruct (single_bin_heights 534 this ltac:(lia) Hready)
    as (frame & this' & Hrun & Hlen & Hall).
  destruct Hready as (_ & _ & Hamp & _).
  exists frame, this'. split; [exact Hrun |]. split; [exact Hlen |].
  intros j h Hh.
  assert (Hj : (j < 64)%nat) by (apply lookup_lt_Some in Hh; lia).
  rewrite Hall in Hh by exact Hj. injection Hh as <-.
  rewrite <- (only_band_58_reads_bin_534 j Hj).
  case_decide as Hidx.
  - split; [intros _; exact Hidx |]. intros _.
    unfold Rmin. destruct (Rle_dec _ _); lra.
  - split; [lra | intros Hc; exfalso; exact (Hidx Hc)].
Qed.

(** C3, as the code has it: with 64 bars and smoothing 1.0, a 1024-bin
    snapshot whose only non-zero entry is 255 at bin 512 gives 64 bars of
    height 0, because no band reads bin 512; with the 255 at bin 534,
    which band 58 reads, exactly bar 58 has a height above 0. *)
Theorem single_bin_frame (this : Manager) :
  scenario_ready this ->
  (exists frame this',
      analyse_bars (single_bin_snapshot 512) this = Returned (frame, this')
      /\ length (bv_heights frame) = 64%nat
      /\ Forall (fun h => h = 0) (bv_heights frame))
  /\ (exists frame this',
         analyse_bars (single_bin_snapshot 534) this = Returned (frame, this')
         /\ length (bv_heights frame) = 64%nat
         /\ forall j h, bv_heights frame !! j = Some h ->
              (h > 0 <-> j = 58%nat)).
Proof.
  intros Hready. split.
  - apply single_bin_512_heights, Hready.
  - apply single_bin_534_heights, Hready.
Qed.

Lemma unsmoothed_manager_ready : scenario_ready (new_manager unsmoothed_config).
Proof.
  unfold scenario_ready, sized. cbn.
  repeat split; try reflexivity; try lra; apply length_replicate.
Qed.

Lemma single_bin_frame_witness :
  scenario_ready (new_manager unsmoothed_config)
  /\ (exists frame this',
         analyse_bars (single_bin_snapshot 512) (new_manager unsmoothed_config)
           = Returned (frame, this')
         /\ length (bv_heights frame) = 64%nat
         /\ Forall (fun h => h = 0) (bv_heights frame)).
Proof.
  split; [exact unsmoothed_manager_ready |].
  apply (single_bin_frame (new_manager unsmoothed_config)).
  exact unsmoothed_manager_ready.
Defined.

(** C3 fails as stated: in the scenario itself (fresh manager, 64 bars,
    smoothing 1.0, bin 512 at 255) no bar has a height above 0, so there
    is not exactly one such bar. *)
Lemma single_bin_512_lights_no_bar :
  ~ (exists frame this' i,
        analyse_bars (single_bin_snapshot 512) (new_manager unsmoothed_config)
          = Returned (frame, this')
        /\ (exists h, bv_heights frame !! i = Some h /\ h > 0)
        /\ (forall j h, j <> i -> bv_heights frame !! j = Some h -> h = 0)).
Proof.
  intros (frame & this' & i & Hrun & (h & Hh & Hpos) & _).
  destruct (single_bin_512_heights (new_manager unsmoothed_config)
              unsmoothed_manager_ready)
    as (frame0 & this0 & Hrun0 & _ & Hzero).
  rewrite Hrun0 in Hrun. injection Hrun as <- _.
  rewrite Forall_lookup in Hzero. specialize (Hzero i h Hh). lra.
Qed.

Lemma peak_tracker_step_response_witness :
  exists out this',
    peaks_through step_heights 35 (new_manager two_bar_config)
      = Returned (out, this')
    /\ ((35 <= 30)%nat -> peakValues this' !!! 0%nat = 1)
    /\ (forall k, 35%nat = (30 + k)%nat ->
          peakValues this' !!! 0%nat = (95 / 100) ^ k)
    /\ out !! 0%nat
       = Some (if peakHold two_bar_config
               then peakValues this' !!! 0%nat else 0).
Proof.
  apply (peak_tracker_step_response two_bar_config 0 step_heights 35).
  - reflexivity.
  - simpl. lia.
  - intros [|f]; reflexivity.
  - reflexivity.
  - intros [|f] Hf; [lia | reflexivity].
Defined.

(** ** The circular generator *)

(** [smoothValue] touches the smoother's array only. *)
Lemma smoothValue_frame (newValue : R) (index : nat) (this : Manager) :
  exists a this',
    smoothValue newValue index this = Returned (a, this')
    /\ config this' = config this
    /\ rotation this' = rotation this
    /\ peakValues this' = peakValues this
    /\ peakHoldFrames this' = peakHoldFrames this
    /\ length (smoothedValues this') = length (smoothedValues this).
Proof.
  destruct (decide (index < length (smoothedValues this))%nat).
  - rewrite smoothValue_in_range by assumption. cbv zeta.
    eexists _, _. split; [reflexivity |]. cbn.
    rewrite length_insert. repeat split; reflexivity.
  - rewrite smoothValue_out_of_range by lia.
    eexists _, _. repeat split; reflexivity.
Qed.

(** A loop keeps what each pass of its body keeps. *)
Lemma for_push_invariant {A} (I : Manager -> Prop) (body : nat -> M A)
  (l : list nat) (this : Manager) :
  I this ->
  (forall i s, I s -> exists a s', body i s = Returned (a, s') /\ I s') ->
  exists out this',
    mapM body l this = Returned (out, this')
    /\ length out = length l
    /\ I this'.
Proof.
  intros HI Hbody. revert this HI.
  induction l as [|i l IH]; intros this HI.
  - exists [], this. split; [reflexivity | split; [reflexivity | exact HI]].
  - destruct (Hbody i this HI) as (a & s1 & Ha & HI1).
    destruct (IH s1 HI1) as (out & s2 & Hout & Hlen & HI2).
    exists (a :: out), s2. split; [| split; [simpl; congruence | exact HI2]].
    cbn [mapM]. rewrite (bind_Returned _ _ _ _ _ Ha).
    rewrite (bind_Returned _ _ _ _ _ Hout). reflexivity.
Qed.

(** A circular frame from a non-null waveform: 256 points, the advanced
    rotation, and the glow computed from the average amplitude. *)
Lemma generateCircularVisualization_returns (waveformData : WaveformData)
  (width height : R) (this : Manager) :
  let avgAmplitude := calculateAverageAmplitude (wd_normalized waveformData) in
  exists points this',
    generateCircularVisualization (Some waveformData) width height this
    = Returned
        ({| cv_points := points;
            cv_rotation := rotation this + (1 / 100 + avgAmplitude * (5 / 100));
            cv_centerGlow :=
              {| glow_intensity := Rmin (avgAmplitude * 2) 1;
                 glow_color := calculateCenterGlowColor avgAmplitude |} |},
         this')
    /\ length points = 256%nat
    /\ rotation this' = rotation this + (1 / 100 + avgAmplitude * (5 / 100)).
Proof.
  intros avgAmplitude.
  unfold generateCircularVisualization. fold avgAmplitude.
  set (s0 := set_rotation
               (fun r => r + (1 / 100 + avgAmplitude * (5 / 100))) this).
  set (body := fun i : nat => _).
  destruct (for_push_invariant (fun s => rotation s = rotation s0) body
              (seq 0 256) s0 eq_refl)
    as (points & this' & Hrun & Hlen & Hrot).
  { intros i s Hs. unfold body.
    destruct (smoothValue_frame
                (Rabs (default 0
                         (wd_normalized waveformData
                            !! Z.to_nat
                                 (Zfloor (INR i / INR 256
                                          * INR (length (wd_normalized
                                                           waveformData)))))))
                (i mod length (smoothedValues s)) s)
      as (a & s' & Hsm & _ & Hr & _).
    eexists _, s'. split; [| congruence].
    unfold mbind at 1. unfold M_bind at 1. unfold get at 1.
    rewrite (bind_Returned _ _ _ _ _ Hsm). reflexivity. }
  exists points, this'. split; [| split].
  - unfold mbind at 1. unfold M_bind at 1. unfold modify at 1. fold s0.
    unfold for_push. rewrite (bind_Returned _ _ _ _ _ Hrun).
    unfold mbind, M_bind, get, mret, M_ret. rewrite Hrot. reflexivity.
  - rewrite Hlen, length_seq. reflexivity.
  - rewrite Hrot. reflexivity.
Qed.

(** ** Calls never fail *)

Lemma calculateBarHeights_pass_returns (logarithmicData : list R) (i : nat)
  (s : Manager) :
  exists a s', calculateBarHeights_pass logarithmicData i s = Returned (a, s').
Proof.
  unfold calculateBarHeights_pass.
  unfold mbind at 1. unfold M_bind at 1. unfold get at 1. cbv zeta.
  destruct (smoothValue_returns
              (default 0 (logarithmicData !! i) * amplification (config s)) i s)
    as (a & s' & Hsm).
  rewrite (bind_Returned _ _ _ _ _ Hsm). eexists _, _. reflexivity.
Qed.

Lemma calculatePeaks_pass_returns (heights : list R) (i : nat) (s : Manager) :
  exists a s', calculatePeaks_pass heights i s = Returned (a, s').
Proof.
  unfold calculatePeaks_pass, mbind, M_bind, get, modify, mret, M_ret.
  cbv zeta. repeat case_decide; eexists _, _; reflexivity.
Qed.

(** Every bars call returns a frame with one height per configured bar. *)
Lemma generateBarsVisualization_returns (frequencyData : option FrequencyData)
  (this : Manager) :
  exists frame this',
    generateBarsVisualization frequencyData this = Returned (frame, this')
    /\ length (bv_heights frame) = barCount (config this).
Proof.
  destruct frequencyData as [fd|].
  - destruct (for_push_returns (calculateBarHeights_pass (fd_logarithmic fd))
                (seq 0 (barCount (config this))) this
                (calculateBarHeights_pass_returns _))
      as (heights & s1 & Hrun1 & Hlen1).
    destruct (for_push_returns (calculatePeaks_pass heights)
                (seq 0 (length heights)) s1 (calculatePeaks_pass_returns _))
      as (peaks & s2 & Hrun2 & _).
    eexists _, s2. split.
    + unfold generateBarsVisualization.
      assert (Hheights : calculateBarHeights (fd_logarithmic fd) this
                         = Returned (heights, s1)) by exact Hrun1.
      assert (Hpeaks : calculatePeaks heights s1 = Returned (peaks, s2))
        by exact Hrun2.
      rewrite (bind_Returned _ _ _ _ _ Hheights).
      rewrite (bind_Returned _ _ _ _ _ Hpeaks).
      unfold calculateBarColors at 1.
      unfold mbind at 1. unfold M_bind at 1. unfold get at 1.
      unfold mbind at 1. unfold M_bind at 1. unfold for_push.
      rewrite for_push_pure. reflexivity.
    + cbn. rewrite Hlen1, length_seq. reflexivity.
  - eexists _, _. split; [apply generateSilentBars_eq |].
    cbn. apply length_replicate.
Qed.

(** Every circular call returns a frame of 256 points. *)
Lemma generateCircularVisualization_total (waveformData : option WaveformData)
  (width height : R) (this : Manager) :
  exists frame this',
    generateCircularVisualization waveformData width height this
      = Returned (frame, this')
    /\ length (cv_points frame) = 256%nat.
Proof.
  destruct waveformData as [wd|].
  - destruct (generateCircularVisualization_returns wd width height this)
      as (points & this' & Hrun & Hlen & _).
    eexists _, this'. split; [exact Hrun | exact Hlen].
  - destruct (generateSilentCircular_returns width height this)
      as (points & Hrun & Hlen & _).
    eexists _, this. split; [exact Hrun | exact Hlen].
Qed.

(** C6, as the code has it: no call checks its configuration and none
    raises [InvalidConfiguration].  For every width and height (also 0 or
    negative) the circular generator returns a frame of 256 points, its
    point count being the constant 256; for every natural bar count (also
    0) the bars generator returns a frame with that many bars; for every
    snapshot (also with fewer than two bins) the band mapper returns one
    value per band; and this holds for every snapshot content. *)
Theorem generators_never_fail (this : Manager)
  (waveformData : option WaveformData) (frequencyData : option FrequencyData)
  (width height : R) (bands : nat) (snapshot : Uint8Array) :
  (exists frame this',
      generateCircularVisualization waveformData width height this
        = Returned (frame, this')
      /\ length (cv_points frame) = 256%nat)
  /\ (exists frame this',
         generateBarsVisualization frequencyData this = Returned (frame, this')
         /\ length (bv_heights frame) = barCount (config this))
  /\ length (convertToLogarithmic bands snapshot) = bands.
Proof.
  split; [apply generateCircularVisualization_total |].
  split; [apply generateBarsVisualization_returns |].
  unfold convertToLogarithmic. rewrite length_map, length_seq. reflexivity.
Qed.

(** C6 fails as stated: a circular call with width 0 and height 0 returns
    a frame instead of failing with [InvalidConfiguration]. *)
Lemma zero_sized_circular_call_returns :
  generateCircularVisualization loud_waveform 0 0 (new_manager two_bar_config)
    <> Thrown InvalidConfiguration
  /\ exists frame this',
       generateCircularVisualization loud_waveform 0 0
         (new_manager two_bar_config) = Returned (frame, this')
       /\ length (cv_points frame) = 256%nat.
Proof.
  destruct (generateCircularVisualization_total loud_waveform 0 0
              (new_manager two_bar_config)) as (frame & this' & Hrun & Hlen).
  split.
  - rewrite Hrun. discriminate.
  - exists frame, this'. split; [exact Hrun | exact Hlen].
Qed.

(** ** Colours *)

(** For a negative dividend above [-b] the remainder is the dividend: the
    sign of the dividend is kept. *)
Lemma js_rem_small_neg (a b : R) : - b < a < 0 -> js_rem a b = a.
Proof.
  intros [Ha Hb]. unfold js_rem.
  assert (Hi : 0 < / b) by (apply Rinv_0_lt_compat; lra).
  assert (Hq : -1 < a / b < 0).
  { unfold Rdiv. split.
    - apply (Rmult_lt_reg_r b); [lra |].
      rewrite Rmult_assoc, Rinv_l by lra. lra.
    - replace 0 with (0 * / b) by ring. apply Rmult_lt_compat_r; lra. }
  rewrite Ztrunc_neg by lra.
  rewrite (Zfloor_eq 0 (- (a / b))) by (simpl; lra).
  rewrite Z.opp_0. lra.
Qed.

Lemma js_rem_self (b : R) : 0 < b -> js_rem b b = 0.
Proof.
  intros Hb. unfold js_rem.
  replace (b / b) with 1 by (field; lra).
  rewrite Ztrunc_nonneg by lra.
  rewrite (Zfloor_eq 1 1) by (simpl; lra).
  simpl. lra.
Qed.

(** With full saturation, a hue from 0 to 120 degrees and a brightness in
    [0,1], every channel is in [0,1]. *)
Lemma hsvToRgb_green_to_red (h v : R) :
  0 <= h <= 120 -> 0 <= v <= 1 -> color_in_range (hsvToRgb h 1 v).
Proof.
  intros [Hh0 Hh1] [Hv0 Hv1]. unfold hsvToRgb. cbv zeta.
  destruct (Rlt_le_dec (h / 60) 1) as [Hlow|Hhigh].
  - rewrite js_rem_small by lra. decide_sectors. split_channels.
    rewrite Rabs_left1 by lra. nra.
  - destruct (Rlt_le_dec (h / 60) 2) as [Hmid|Htop].
    + rewrite js_rem_small by lra. decide_sectors. split_channels.
      rewrite Rabs_right by lra. nra.
    + replace (h / 60) with 2 by lra.
      rewrite js_rem_self by lra. decide_sectors. split_channels.
      rewrite Rabs_left1 by lra. nra.
Qed.

(** The WMP colour of an intensity in [0,1] has its channels in [0,1]. *)
Lemma calculateWMPColor_in_range (intensity : R) :
  0 <= intensity <= 1 -> color_in_range (calculateWMPColor intensity).
Proof.
  intros H. unfold calculateWMPColor. cbv zeta.
  apply hsvToRgb_green_to_red; [lra |].
  unfold Rmax. destruct (Rle_dec _ _); lra.
Qed.

(** So has the modern colour. *)
Lemma calculateModernColor_in_range (intensity : R) :
  0 <= intensity <= 1 -> color_in_range (calculateModernColor intensity).
Proof.
  intros H. unfold calculateModernColor. cbv zeta.
  case_decide; split_channels; lra.
Qed.

(** Bar and point colours are in range for an intensity in [0,1]. *)
Lemma calculateWaveColor_in_range (scheme : ColorScheme) (amplitude : R) :
  0 <= amplitude <= 1 -> color_in_range (calculateWaveColor scheme amplitude).
Proof.
  intros H. destruct scheme;
    [apply calculateWMPColor_in_range | apply calculateModernColor_in_range];
    exact H.
Qed.

(** The centre glow stays in range while its hue is not negative, that is
    up to intensity 1/2. *)
Lemma calculateCenterGlowColor_in_range (intensity : R) :
  0 <= intensity <= 1 / 2 ->
  color_in_range (calculateCenterGlowColor intensity).
Proof.
  intros H. unfold calculateCenterGlowColor. cbv zeta.
  apply hsvToRgb_green_to_red; lra.
Qed.

(** Past intensity 1/2 the hue [120 - intensity * 240] is negative;
    [hsvToRgb] then takes its last branch with a negative [x], and the
    blue channel is [2 - 4 * intensity < 0]. *)
Lemma calculateCenterGlowColor_negative_hue (intensity : R) :
  1 / 2 < intensity < 1 ->
  calculateCenterGlowColor intensity = (1, 0, 2 - 4 * intensity).
Proof.
  intros H. unfold calculateCenterGlowColor, hsvToRgb. cbv zeta.
  rewrite js_rem_small_neg by lra. decide_sectors.
  rewrite Rabs_left by lra.
  f_equal; [f_equal |]; lra.
Qed.

Lemma loud_waveform_average :
  calculateAverageAmplitude [(byte_value Init.Byte.x20 - 128) / 128] = 3 / 4.
Proof.
  unfold calculateAverageAmplitude, byte_value. simpl.
  rewrite Rabs_left by lra. lra.
Qed.

(** C5 on the code: at intensity 0.75 the centre-glow colour is
    (1, 0, -1), whose blue channel is below 0, and a circular frame from a
    waveform of average amplitude 0.75 carries that colour. *)
Theorem center_glow_blue_below_zero :
  calculateCenterGlowColor (3 / 4) = (1, 0, -1)
  /\ ~ color_in_range (calculateCenterGlowColor (3 / 4))
  /\ forall width height this,
       exists frame this',
         generateCircularVisualization loud_waveform width height this
           = Returned (frame, this')
         /\ glow_color (cv_centerGlow frame) = (1, 0, -1).
Proof.
  assert (Hcolor : calculateCenterGlowColor (3 / 4) = (1, 0, -1)).
  { rewrite calculateCenterGlowColor_negative_hue by lra.
    f_equal. lra. }
  split; [exact Hcolor |]. split.
  - rewrite Hcolor. unfold color_in_range, blue. simpl. lra.
  - intros width height this.
    destruct (generateCircularVisualization_returns
                {| wd_raw := [Init.Byte.x20];
                   wd_normalized := [(byte_value Init.Byte.x20 - 128) / 128] |}
                width height this) as (points & this' & Hrun & _).
    eexists _, this'. split; [exact Hrun |].
    cbn [cv_centerGlow glow_color wd_normalized].
    rewrite loud_waveform_average. exact Hcolor.
Qed.

(** ** The array-length invariant *)

Lemma wf_new_manager (cfg : VisualizationConfig) : wf (new_manager cfg).
Proof.
  unfold wf, sized. cbn. rewrite !length_replicate.
  repeat split; try reflexivity. left. reflexivity.
Qed.

(** [updateConfig] keeps the arrays as long as each other and at least as
    long as the bar count. *)
Lemma wf_updateConfig (newConfig : PartialConfig) (this : Manager) :
  wf this ->
  exists this', updateConfig newConfig this = Returned (tt, this') /\ wf this'.
Proof.
  intros ((_ & Hph & Hsv) & Hbars).
  unfold updateConfig, initializeArrays, mbind, M_bind, modify, get, mret, M_ret.
  cbn [set_config peakValues].
  destruct (p_barCount newConfig) as [n|] eqn:Hn.
  - destruct (bool_decide (n <> 0%nat) && bool_decide (n <> length (peakValues this)))
      eqn:Hcond.
    + eexists. split; [reflexivity |].
      unfold wf, sized, merge_config. cbn. rewrite Hn. cbn.
      rewrite !length_replicate. repeat split; try reflexivity.
      left. reflexivity.
    + eexists. split; [reflexivity |].
      unfold wf, sized, merge_config. cbn. rewrite Hn. cbn.
      repeat split; try assumption.
      apply andb_false_iff in Hcond as [Hz|Hl];
        apply bool_decide_eq_false in Hz || apply bool_decide_eq_false in Hl.
      * right. destruct (decide (n = 0%nat)); [assumption | contradiction].
      * left. destruct (decide (n = length (peakValues this)));
          [assumption | contradiction].
  - eexists. split; [reflexivity |].
    unfold wf, sized, merge_config. cbn. rewrite Hn. cbn.
    repeat split; assumption.
Qed.

Lemma wf_reset (this : Manager) :
  wf this -> exists this', reset this = Returned (tt, this') /\ wf this'.
Proof.
  intros ((_ & Hph & Hsv) & Hbars).
  eexists. split; [reflexivity |].
  unfold wf, sized. cbn. rewrite !length_replicate.
  repeat split; assumption.
Qed.

(** Under the invariant every bar has its entry in each array. *)
Lemma wf_covers (this : Manager) :
  wf this ->
  (barCount (config this) <= length (smoothedValues this))%nat
  /\ (barCount (config this) <= length (peakValues this))%nat
  /\ (barCount (config this) <= length (peakHoldFrames this))%nat.
Proof. intros ((_ & Hph & Hsv) & [Hb|Hb]); lia. Qed.

(** * Further properties of the engine *)

(** ** The band mapper's index *)

Lemma band_fraction_le (bands i j : nat) :
  (1 <= bands)%nat -> (i <= j)%nat -> INR i / INR bands <= INR j / INR bands.
Proof.
  intros HB Hij.
  assert (0 < / INR bands) by (apply Rinv_0_lt_compat, lt_0_INR; lia).
  unfold Rdiv. apply Rmult_le_compat_r; [lra | apply le_INR, Hij].
Qed.

(** X1: the bin index never goes down from one band to the next: a
    higher band reads the same bin or a higher one. *)
Theorem logIndex_monotone (binCount bands i j : nat) :
  (2 <= binCount)%nat -> (1 <= bands)%nat -> (i <= j)%nat ->
  (logIndex binCount bands i <= logIndex binCount bands j)%Z
  /\ (binIndex binCount bands i <= binIndex binCount bands j)%Z.
Proof.
  intros HN HB Hij.
  assert (Hlog : (logIndex binCount bands i <= logIndex binCount bands j)%Z).
  { unfold logIndex. apply Zfloor_le.
    assert (HNr : 2 <= INR binCount)
      by (change 2 with (INR 2); apply le_INR, HN).
    assert (Hpow : Rpower (INR binCount) (INR i / INR bands)
                   <= Rpower (INR binCount) (INR j / INR bands)).
    { apply Rle_Rpower; [lra | apply band_fraction_le; assumption]. }
    assert (Hi : 0 < / (INR binCount - 1)) by (apply Rinv_0_lt_compat; lra).
    unfold Rdiv. apply Rmult_le_compat_r; [lra |].
    apply Rmult_le_compat_r; lra. }
  split; [exact Hlog | unfold binIndex; lia].
Qed.

Lemma logIndex_monotone_witness :
  (logIndex 1024 64 10 <= logIndex 1024 64 20)%Z
  /\ (binIndex 1024 64 10 <= binIndex 1024 64 20)%Z.
Proof. apply (logIndex_monotone 1024 64 10 20); lia. Defined.

(** X2: for every band below the band count the computed index already
    lies in [0, binCount - 1], so [Math.min(logIndex, binCount - 1)]
    changes nothing; and band 0 reads bin 0 whatever the two counts. *)
Theorem logIndex_in_bounds (binCount bands i : nat) :
  (2 <= binCount)%nat -> (i < bands)%nat ->
  (0 <= logIndex binCount bands i <= Z.of_nat binCount - 1)%Z
  /\ binIndex binCount bands i = logIndex binCount bands i
  /\ logIndex binCount bands 0 = 0%Z.
Proof.
  intros HN Hi.
  assert (HB : (1 <= bands)%nat) by lia.
  assert (HNr : 2 <= INR binCount)
    by (change 2 with (INR 2); apply le_INR, HN).
  assert (Hlo := logIndex_nonneg binCount bands i HN HB).
  assert (Hhi : (logIndex binCount bands i < Z.of_nat binCount)%Z).
  { apply lt_IZR.
    apply Rle_lt_trans
      with ((Rpower (INR binCount) (INR i / INR bands) - 1)
            / (INR binCount - 1) * INR binCount).
    - apply Zfloor_bound.
    - apply (scaled_lt binCount bands i HN).
      rewrite <- INR_IZR_INZ.
      assert (Hx : Rpower (INR binCount) (INR i / INR bands) < INR binCount).
      { apply Rlt_le_trans with (Rpower (INR binCount) 1);
          [| right; apply Rpower_1; lra].
        apply Rpower_lt; [lra |].
        assert (0 < INR bands) by (apply lt_0_INR; lia).
        apply (Rmult_lt_reg_r (INR bands)); [assumption |].
        unfold Rdiv. rewrite Rmult_assoc, Rinv_l, Rmult_1_r, Rmult_1_l by lra.
        apply lt_INR, Hi. }
      nra. }
  split; [lia |]. split; [unfold binIndex; lia |].
  apply logIndex_iff; [exact HN | exact HB |].
  unfold logIndex_check. cbv zeta.
  rewrite !andb_true_iff, Z.leb_le, Z.leb_le, Z.ltb_lt.
  replace (0 * (Z.of_nat binCount - 1) + Z.of_nat binCount)%Z
    with (Z.of_nat binCount) by lia.
  replace ((0 + 1) * (Z.of_nat binCount - 1) + Z.of_nat binCount)%Z
    with (2 * Z.of_nat binCount - 1)%Z by lia.
  cbn [Nat.add].
  split; [split; [lia | lia] |].
  apply Z.pow_lt_mono_l; lia.
Qed.

Lemma logIndex_in_bounds_witness :
  (0 <= logIndex 1024 64 63 <= Z.of_nat 1024 - 1)%Z
  /\ binIndex 1024 64 63 = logIndex 1024 64 63
  /\ logIndex 1024 64 0 = 0%Z.
Proof. apply (logIndex_in_bounds 1024 64 63); lia. Defined.

(** ** The engine's peak list *)

(** The loop of [updatePeaks] over the indices [k .. k+n-1]. *)
Lemma updatePeaks_loop (logarithmic : list R) (n k : nat) (peaks : list R) :
  (k + n <= length peaks)%nat ->
  let result :=
    foldl (fun peaks i =>
             <[i := Rmax (logarithmic !!! i) (peaks !!! i * PEAK_DECAY_RATE)]>
               peaks)
          peaks (seq k n) in
  length result = length peaks
  /\ forall j,
      ((k <= j < k + n)%nat ->
       result !!! j = Rmax (logarithmic !!! j) (peaks !!! j * PEAK_DECAY_RATE))
      /\ (~ (k <= j < k + n)%nat -> result !! j = peaks !! j).
Proof.
  revert k peaks. induction n as [|n IH]; intros k peaks Hlen; cbv zeta.
  - split; [reflexivity |]. intros j. split; [lia | reflexivity].
  - cbn [seq foldl].
    set (p1 := <[k := _]> peaks).
    assert (Hl1 : length p1 = length peaks) by apply length_insert.
    destruct (IH (S k) p1 ltac:(lia)) as [Hl Hall]. cbv zeta in Hl, Hall.
    split; [lia |].
    intros j. destruct (Hall j) as [Hin Hout]. split.
    + intros Hj. destruct (decide (j = k)) as [->|Hne].
      * rewrite list_lookup_total_alt, Hout by lia.
        unfold p1. rewrite list_lookup_insert_eq by lia. reflexivity.
      * rewrite Hin by lia. unfold p1.
        rewrite list_lookup_total_insert_ne by lia. reflexivity.
    + intros Hj. rewrite Hout by lia. unfold p1.
      apply list_lookup_insert_ne. lia.
Qed.

(** [updatePeaks], entry by entry. *)
Lemma updatePeaks_lookup (logarithmic peaks : list R) :
  length (updatePeaks logarithmic peaks) = length peaks
  /\ forall j,
      ((j < length logarithmic)%nat -> (j < length peaks)%nat ->
       updatePeaks logarithmic peaks !!! j
         = Rmax (logarithmic !!! j) (peaks !!! j * (95 / 100))
       /\ logarithmic !!! j <= updatePeaks logarithmic peaks !!! j
       /\ peaks !!! j * (95 / 100) <= updatePeaks logarithmic peaks !!! j)
      /\ ((length logarithmic <= j)%nat ->
          updatePeaks logarithmic peaks !! j = peaks !! j).
Proof.
  destruct (updatePeaks_loop logarithmic
              (min (length logarithmic) (length peaks)) 0 peaks ltac:(lia))
    as [Hlen Hall].
  fold (updatePeaks logarithmic peaks) in Hlen, Hall.
  split; [exact Hlen |].
  intros j. destruct (Hall j) as [Hin Hout]. split.
  - intros H1 H2. rewrite Hin by lia. unfold PEAK_DECAY_RATE.
    split; [reflexivity |].
    unfold Rmax. destruct (Rle_dec _ _); lra.
  - intros Hj. apply Hout. lia.
Qed.

Lemma updatePeaks_unit (logarithmic peaks : list R) :
  Forall (fun v => 0 <= v <= 1) logarithmic ->
  Forall (fun v => 0 <= v <= 1) peaks ->
  Forall (fun v => 0 <= v <= 1) (updatePeaks logarithmic peaks).
Proof.
  intros Hlog Hpeaks.
  destruct (updatePeaks_lookup logarithmic peaks) as [Hlen Hall].
  apply Forall_lookup. intros j v Hv.
  assert (Hj : (j < length peaks)%nat)
    by (apply lookup_lt_Some in Hv; lia).
  destruct (Hall j) as [Hin Hout].
  destruct (decide (j < length logarithmic)%nat) as [Hjl|Hjl].
  - destruct (Hin Hjl Hj) as [Heq _].
    rewrite (list_lookup_total_correct _ _ _ Hv) in Heq. subst v.
    assert (Hl : 0 <= logarithmic !!! j <= 1).
    { rewrite Forall_lookup in Hlog. apply (Hlog j).
      apply list_lookup_lookup_total_lt. exact Hjl. }
    assert (Hp : 0 <= peaks !!! j <= 1).
    { rewrite Forall_lookup in Hpeaks. apply (Hpeaks j).
      apply list_lookup_lookup_total_lt. exact Hj. }
    unfold Rmax. destruct (Rle_dec _ _); lra.
  - rewrite Hout in Hv by lia.
    rewrite Forall_lookup in Hpeaks. exact (Hpeaks j v Hv).
Qed.

(** X3: [updatePeaks] keeps the length of the peak list; below both
    lengths the new peak is the larger of the band value and 0.95 times
    the old peak, so it is never below the band value and never below 95%
    of the old peak; past the band values the list is untouched; and
    peaks and band values in [0,1] give peaks in [0,1]. *)
Theorem updatePeaks_entries (logarithmic peaks : list R) :
  length (updatePeaks logarithmic peaks) = length peaks
  /\ (forall j,
        ((j < length logarithmic)%nat -> (j < length peaks)%nat ->
         updatePeaks logarithmic peaks !!! j
           = Rmax (logarithmic !!! j) (peaks !!! j * (95 / 100))
         /\ logarithmic !!! j <= updatePeaks logarithmic peaks !!! j
         /\ peaks !!! j * (95 / 100) <= updatePeaks logarithmic peaks !!! j)
        /\ ((length logarithmic <= j)%nat ->
            updatePeaks logarithmic peaks !! j = peaks !! j))
  /\ (Forall (fun v => 0 <= v <= 1) logarithmic ->
      Forall (fun v => 0 <= v <= 1) peaks ->
      Forall (fun v => 0 <= v <= 1) (updatePeaks logarithmic peaks)).
Proof.
  destruct (updatePeaks_lookup logarithmic peaks) as [Hlen Hall].
  split; [exact Hlen |]. split; [exact Hall |].
  apply updatePeaks_unit.
Qed.

(** The mapper's output over at least two bins: one value in [0,1] per
    band. *)
Lemma convertToLogarithmic_unit (bands : nat) (frequencyData : Uint8Array) :
  (2 <= length frequencyData)%nat ->
  length (convertToLogarithmic bands frequencyData) = bands
  /\ Forall (fun v => 0 <= v <= 1) (convertToLogarithmic bands frequencyData).
Proof.
  intros HN.
  assert (Hlen : length (convertToLogarithmic bands frequencyData) = bands).
  { unfold convertToLogarithmic. rewrite length_map, length_seq. reflexivity. }
  split; [exact Hlen |].
  apply Forall_lookup. intros i v Hv.
  assert (Hi : (i < bands)%nat) by (apply lookup_lt_Some in Hv; lia).
  destruct (convertToLogarithmic_lookup bands frequencyData i HN Hi)
    as (b & _ & Hout).
  rewrite Hout in Hv. injection Hv as <-.
  pose proof (byte_value_range b). lra.
Qed.

(** X4: with an analyser snapshot of at least two bins and an engine peak
    list of 64 values in [0,1] (as after construction), [getFrequencyData]
    returns the snapshot itself, 64 band values in [0,1] and 64 peaks in
    [0,1], each peak at least its band value; the returned peaks are the
    engine's new peak list. *)
Theorem getFrequencyData_ranges (snapshot : Uint8Array) (peaks : list R) :
  (2 <= length snapshot)%nat ->
  length peaks = FREQUENCY_BANDS ->
  Forall (fun v => 0 <= v <= 1) peaks ->
  exists frequencyData,
    getFrequencyData (Some snapshot) peaks
      = (Some frequencyData, fd_peaks frequencyData)
    /\ fd_raw frequencyData = snapshot
    /\ length (fd_logarithmic frequencyData) = 64%nat
    /\ Forall (fun v => 0 <= v <= 1) (fd_logarithmic frequencyData)
    /\ length (fd_peaks frequencyData) = 64%nat
    /\ Forall (fun v => 0 <= v <= 1) (fd_peaks frequencyData)
    /\ forall j, (j < 64)%nat ->
         fd_logarithmic frequencyData !!! j <= fd_peaks frequencyData !!! j.
Proof.
  intros HN Hlen Hunit.
  destruct (convertToLogarithmic_unit FREQUENCY_BANDS snapshot HN)
    as [Hl Hu].
  exists {| fd_raw := snapshot;
            fd_logarithmic := convertToLogarithmic FREQUENCY_BANDS snapshot;
            fd_peaks :=
              updatePeaks (convertToLogarithmic FREQUENCY_BANDS snapshot)
                peaks |}.
  split; [reflexivity |]. cbn [fd_raw fd_logarithmic fd_peaks].
  destruct (updatePeaks_lookup
              (convertToLogarithmic FREQUENCY_BANDS snapshot) peaks)
    as [Hpl Hall].
  split; [reflexivity |]. split; [exact Hl |]. split; [exact Hu |].
  split; [rewrite Hpl; exact Hlen |].
  split; [apply updatePeaks_unit; assumption |].
  intros j Hj. destruct (Hall j) as [Hin _].
  apply Hin; [rewrite Hl; exact Hj | rewrite Hlen; exact Hj].
Qed.

Lemma getFrequencyData_ranges_witness :
  exists frequencyData,
    getFrequencyData (Some [Init.Byte.x10; Init.Byte.xff])
      (replicate FREQUENCY_BANDS 0)
      = (Some frequencyData, fd_peaks frequencyData)
    /\ fd_raw frequencyData = [Init.Byte.x10; Init.Byte.xff]
    /\ length (fd_logarithmic frequencyData) = 64%nat
    /\ Forall (fun v => 0 <= v <= 1) (fd_logarithmic frequencyData)
    /\ length (fd_peaks frequencyData) = 64%nat
    /\ Forall (fun v => 0 <= v <= 1) (fd_peaks frequencyData)
    /\ forall j, (j < 64)%nat ->
         fd_logarithmic frequencyData !!! j <= fd_peaks frequencyData !!! j.
Proof.
  apply (getFrequencyData_ranges [Init.Byte.x10; Init.Byte.xff]
           (replicate FREQUENCY_BANDS 0)).
  - simpl. lia.
  - apply length_replicate.
  - apply Forall_forall. intros v Hv.
    apply elem_of_replicate in Hv as [-> _]. lra.
Defined.

(** ** The waveform *)

(** The running total of [calculateAverageAmplitude] over samples of
    absolute value at most 1. *)
Lemma total_amplitude_bounds (waveform : list R) (total : R) :
  Forall (fun v => -1 <= v <= 1) waveform ->
  total <= foldl (fun total value => total + Rabs value) total waveform
        <= total + INR (length waveform).
Proof.
  revert total. induction waveform as [|v l IH]; intros total Hall.
  - simpl. lra.
  - apply Forall_cons in Hall as [Hv Hl].
    cbn [foldl]. specialize (IH (total + Rabs v) Hl).
    assert (0 <= Rabs v <= 1).
    { split; [apply Rabs_pos | apply Rabs_le; lra]. }
    change (length (v :: l)) with (S (length l)). rewrite S_INR. lra.
Qed.

(** The average amplitude of a non-empty waveform within [-1,1] lies in
    [0,1]. *)
Lemma calculateAverageAmplitude_unit (waveform : list R) :
  waveform <> [] ->
  Forall (fun v => -1 <= v <= 1) waveform ->
  0 <= calculateAverageAmplitude waveform <= 1.
Proof.
  intros Hne Hall. unfold calculateAverageAmplitude. cbv zeta.
  pose proof (total_amplitude_bounds waveform 0 Hall) as Hb.
  assert (Hn : 0 < INR (length waveform)).
  { apply lt_0_INR. destruct waveform; [congruence | simpl; lia]. }
  assert (Hi : 0 < / INR (length waveform)) by (apply Rinv_0_lt_compat, Hn).
  unfold Rdiv. split.
  - apply Rmult_le_pos; lra.
  - apply (Rmult_le_reg_r (INR (length waveform))); [exact Hn |].
    rewrite Rmult_assoc, Rinv_l by lra. lra.
Qed.

(** Every normalised sample is [(byte - 128) / 128]. *)
Lemma normalized_range (snapshot : Uint8Array) :
  Forall (fun v => -1 <= v <= 127 / 128)
    (map (fun value => (byte_value value - 128) / 128) snapshot).
Proof.
  apply Forall_forall. intros v Hv.
  apply list_elem_of_In, in_map_iff in Hv as (b & <- & _).
  pose proof (byte_value_range b). lra.
Qed.

(** X5: [getWaveformData] on a non-empty time-domain snapshot returns the
    snapshot with one normalised sample per byte, each in [-1, 127/128],
    and the average amplitude computed from these samples lies in
    [0,1]. *)
Theorem getWaveformData_ranges (snapshot : Uint8Array) :
  snapshot <> [] ->
  exists waveformData,
    getWaveformData (Some snapshot) = Some waveformData
    /\ wd_raw waveformData = snapshot
    /\ length (wd_normalized waveformData) = length snapshot
    /\ Forall (fun v => -1 <= v <= 127 / 128) (wd_normalized waveformData)
    /\ 0 <= calculateAverageAmplitude (wd_normalized waveformData) <= 1.
Proof.
  intros Hne. eexists. split; [reflexivity |].
  cbn [wd_raw wd_normalized].
  split; [reflexivity |]. split; [apply length_map |].
  split; [apply normalized_range |].
  apply calculateAverageAmplitude_unit.
  - destruct snapshot; [congruence | discriminate].
  - eapply Forall_impl; [apply normalized_range |].
    intros v Hv. simpl in Hv. lra.
Qed.

Lemma getWaveformData_ranges_witness :
  exists waveformData,
    getWaveformData (Some [Init.Byte.x20; Init.Byte.xff]) = Some waveformData
    /\ wd_raw waveformData = [Init.Byte.x20; Init.Byte.xff]
    /\ length (wd_normalized waveformData) = 2%nat
    /\ Forall (fun v => -1 <= v <= 127 / 128) (wd_normalized waveformData)
    /\ 0 <= calculateAverageAmplitude (wd_normalized waveformData) <= 1.
Proof.
  apply (getWaveformData_ranges [Init.Byte.x20; Init.Byte.xff]).
  discriminate.
Defined.

(** * Further properties of the visualization manager *)

(** ** The colour mapper *)

(** The remainder of a non-negative number by a positive one lies in
    [[0, b)]. *)
Lemma js_rem_range (a b : R) : 0 <= a -> 0 < b -> 0 <= js_rem a b < b.
Proof.
  intros Ha Hb. unfold js_rem.
  assert (Hi : 0 < / b) by (apply Rinv_0_lt_compat; lra).
  assert (Hq : 0 <= a / b) by (unfold Rdiv; apply Rmult_le_pos; lra).
  rewrite Ztrunc_nonneg by exact Hq.
  destruct (Zfloor_bound (a / b)) as [Hlo Hhi].
  assert (Ha' : a = b * (a / b)) by (field; lra).
  split.
  - assert (b * IZR (Zfloor (a / b)) <= b * (a / b))
      by (apply Rmult_le_compat_l; lra).
    lra.
  - assert (b * (a / b) < b * (IZR (Zfloor (a / b)) + 1))
      by (apply Rmult_lt_compat_l; lra).
    lra.
Qed.

(** X6: on the standard domain (hue in [0, 360), saturation and value in
    [0,1]) [hsvToRgb] returns channels in [0,1] whose largest is the value
    [v] and whose smallest is [v * (1 - s)]. *)
Theorem hsvToRgb_channels (h s v : R) :
  0 <= h < 360 -> 0 <= s <= 1 -> 0 <= v <= 1 ->
  color_in_range (hsvToRgb h s v)
  /\ max_channel (hsvToRgb h s v) = v
  /\ min_channel (hsvToRgb h s v) = v * (1 - s).
Proof.
  intros [Hh0 Hh1] [Hs0 Hs1] [Hv0 Hv1]. unfold hsvToRgb. cbv zeta.
  assert (HH : 0 <= h / 60 < 6) by lra.
  set (H := h / 60) in *.
  assert (Hc : 0 <= v * s <= v) by nra.
  replace (v * (1 - s)) with (v - v * s) by ring.
  set (c := v * s) in *.
  assert (Hx : 0 <= c * (1 - Rabs (js_rem H 2 - 1)) <= c).
  { destruct (js_rem_range H 2 ltac:(lra) ltac:(lra)) as [Ht0 Ht1].
    assert (Hu : 0 <= 1 - Rabs (js_rem H 2 - 1) <= 1).
    { pose proof (Rabs_pos (js_rem H 2 - 1)).
      assert (Rabs (js_rem H 2 - 1) <= 1) by (apply Rabs_le; lra).
      lra. }
    nra. }
  set (x := c * (1 - Rabs (js_rem H 2 - 1))) in *.
  clearbody x c H.
  unfold max_channel, min_channel, color_in_range, red, green, blue.
  repeat case_bool_decide; cbn [andb fst snd]; try lra;
    unfold Rmax, Rmin; repeat destruct (Rle_dec _ _);
    repeat split; lra.
Qed.

Lemma hsvToRgb_channels_witness :
  color_in_range (hsvToRgb 200 (1 / 2) (3 / 4))
  /\ max_channel (hsvToRgb 200 (1 / 2) (3 / 4)) = 3 / 4
  /\ min_channel (hsvToRgb 200 (1 / 2) (3 / 4)) = 3 / 4 * (1 - 1 / 2).
Proof. apply (hsvToRgb_channels 200 (1 / 2) (3 / 4)); lra. Defined.

(** X7: for an intensity in [0,1] the WMP colour has its channels in
    [0,1] and no blue; its brightest channel is [max(0.3, intensity)], so
    it is never darker than 0.3; that brightest channel is green up to
    intensity 1/2 and red from 1/2 on. *)
Theorem calculateWMPColor_channels (intensity : R) :
  0 <= intensity <= 1 ->
  color_in_range (calculateWMPColor intensity)
  /\ blue (calculateWMPColor intensity) = 0
  /\ max_channel (calculateWMPColor intensity) = Rmax (3 / 10) intensity
  /\ (intensity <= 1 / 2 ->
      green (calculateWMPColor intensity) = Rmax (3 / 10) intensity)
  /\ (1 / 2 <= intensity ->
      red (calculateWMPColor intensity) = Rmax (3 / 10) intensity).
Proof.
  intros [H0 H1].
  assert (Hv : 3 / 10 <= Rmax (3 / 10) intensity <= 1).
  { unfold Rmax. destruct (Rle_dec _ _); lra. }
  unfold calculateWMPColor, hsvToRgb. cbv zeta.
  set (v := Rmax (3 / 10) intensity) in *.
  set (H := (120 - intensity * 120) / 60).
  assert (HH : H = 2 - 2 * intensity) by (unfold H; lra).
  assert (Hx : 0 <= v * 1 * (1 - Rabs (js_rem H 2 - 1)) <= v).
  { destruct (js_rem_range H 2 ltac:(lra) ltac:(lra)) as [Ht0 Ht1].
    pose proof (Rabs_pos (js_rem H 2 - 1)).
    assert (Rabs (js_rem H 2 - 1) <= 1) by (apply Rabs_le; lra).
    nra. }
  assert (Hmid : H = 1 -> v * 1 * (1 - Rabs (js_rem H 2 - 1)) = v).
  { intros E. rewrite E, js_rem_small by lra. rewrite Rabs_right by lra. lra. }
  assert (Htop : H = 2 -> v * 1 * (1 - Rabs (js_rem H 2 - 1)) = 0).
  { intros E. rewrite E, js_rem_self by lra. rewrite Rabs_left by lra. lra. }
  set (x := v * 1 * (1 - Rabs (js_rem H 2 - 1))) in *.
  clearbody x v.
  unfold max_channel, color_in_range, red, green, blue.
  destruct (Rlt_le_dec H 1) as [Hs0|Hs0].
  - decide_sectors. cbn [fst snd]. unfold Rmax at 1 2.
    repeat destruct (Rle_dec _ _); repeat split; try lra; intros; lra.
  - destruct (Rlt_le_dec H 2) as [Hs1|Hs1].
    + decide_sectors. cbn [fst snd]. unfold Rmax at 1 2.
      assert (Hone : 1 / 2 <= intensity -> x = v)
        by (intros Hi; apply Hmid; lra).
      repeat destruct (Rle_dec _ _); repeat split; try lra;
        intros Hi; specialize (Hone Hi); lra.
    + specialize (Htop ltac:(lra)).
      decide_sectors. cbn [fst snd]. unfold Rmax at 1 2.
      repeat destruct (Rle_dec _ _); repeat split; try lra; intros; lra.
Qed.

Lemma calculateWMPColor_channels_witness :
  color_in_range (calculateWMPColor 1)
  /\ blue (calculateWMPColor 1) = 0
  /\ max_channel (calculateWMPColor 1) = Rmax (3 / 10) 1
  /\ (1 <= 1 / 2 -> green (calculateWMPColor 1) = Rmax (3 / 10) 1)
  /\ (1 / 2 <= 1 -> red (calculateWMPColor 1) = Rmax (3 / 10) 1).
Proof. apply (calculateWMPColor_channels 1). lra. Defined.

(** X8: for an intensity in [0,1] the modern colour has its channels in
    [0,1], full blue and at least as much green as red; green rises to 1
    at intensity 1/2 and red rises from 0 after it. *)
Theorem calculateModernColor_channels (intensity : R) :
  0 <= intensity <= 1 ->
  color_in_range (calculateModernColor intensity)
  /\ blue (calculateModernColor intensity) = 1
  /\ red (calculateModernColor intensity)
     <= green (calculateModernColor intensity)
  /\ (intensity <= 1 / 2 -> red (calculateModernColor intensity) = 0)
  /\ (1 / 2 <= intensity -> green (calculateModernColor intensity) = 1).
Proof.
  intros [H0 H1]. unfold calculateModernColor. cbv zeta.
  case_decide; split_channels; repeat split; try lra; intros; lra.
Qed.

Lemma calculateModernColor_channels_witness :
  color_in_range (calculateModernColor (1 / 4))
  /\ blue (calculateModernColor (1 / 4)) = 1
  /\ red (calculateModernColor (1 / 4)) <= green (calculateModernColor (1 / 4))
  /\ (1 / 4 <= 1 / 2 -> red (calculateModernColor (1 / 4)) = 0)
  /\ (1 / 2 <= 1 / 4 -> green (calculateModernColor (1 / 4)) = 1).
Proof. apply (calculateModernColor_channels (1 / 4)). lra. Defined.

(** ** The smoother *)

(** X9: for an index inside the state array and a smoothing factor in
    [0,1], [smoothValue] returns a value between the stored value and the
    new one, stores it at that index and changes nothing else; factor 1
    returns the new value and factor 0 the stored one. *)
Theorem smoothValue_between (newValue : R) (index : nat) (this : Manager) :
  (index < length (smoothedValues this))%nat ->
  0 <= smoothing (config this) <= 1 ->
  exists smoothed this',
    smoothValue newValue index this = Returned (smoothed, this')
    /\ Rmin (smoothedValues this !!! index) newValue <= smoothed
       <= Rmax (smoothedValues this !!! index) newValue
    /\ smoothedValues this' = <[index := smoothed]> (smoothedValues this)
    /\ (config this', peakValues this', peakHoldFrames this', rotation this')
       = (config this, peakValues this, peakHoldFrames this, rotation this)
    /\ (smoothing (config this) = 1 -> smoothed = newValue)
    /\ (smoothing (config this) = 0 ->
        smoothed = smoothedValues this !!! index).
Proof.
  intros Hlt [Hf0 Hf1].
  rewrite smoothValue_in_range by exact Hlt. cbv zeta.
  eexists _, _. split; [reflexivity |].
  set (old := smoothedValues this !!! index).
  set (f := smoothing (config this)) in *.
  split; [| split; [reflexivity | split; [reflexivity | split]]].
  - unfold Rmin, Rmax. destruct (Rle_dec old newValue); nra.
  - intros ->. ring.
  - intros ->. ring.
Qed.

Lemma smoothValue_between_witness :
  exists smoothed this',
    smoothValue 1 0 (new_manager two_bar_config) = Returned (smoothed, this')
    /\ Rmin (smoothedValues (new_manager two_bar_config) !!! 0%nat) 1
       <= smoothed
       <= Rmax (smoothedValues (new_manager two_bar_config) !!! 0%nat) 1
    /\ smoothedValues this'
       = <[0%nat := smoothed]> (smoothedValues (new_manager two_bar_config))
    /\ (config this', peakValues this', peakHoldFrames this', rotation this')
       = (config (new_manager two_bar_config),
          peakValues (new_manager two_bar_config),
          peakHoldFrames (new_manager two_bar_config),
          rotation (new_manager two_bar_config))
    /\ (smoothing (config (new_manager two_bar_config)) = 1 -> smoothed = 1)
    /\ (smoothing (config (new_manager two_bar_config)) = 0 ->
        smoothed = smoothedValues (new_manager two_bar_config) !!! 0%nat).
Proof.
  apply (smoothValue_between 1 0 (new_manager two_bar_config)).
  - simpl. lia.
  - simpl. lra.
Defined.

(** ** Bars frames *)

(** Everything a bars call on a non-null snapshot does, bar by bar. *)
Lemma generateBarsVisualization_frame (frequencyData : FrequencyData)
  (this : Manager) :
  (barCount (config this) <= length (smoothedValues this))%nat ->
  (barCount (config this) <= length (peakValues this))%nat ->
  (barCount (config this) <= length (peakHoldFrames this))%nat ->
  exists frame this',
    generateBarsVisualization (Some frequencyData) this = Returned (frame, this')
    /\ length (bv_heights frame) = barCount (config this)
    /\ length (bv_peaks frame) = barCount (config this)
    /\ length (bv_colors frame) = barCount (config this)
    /\ config this' = config this
    /\ rotation this' = rotation this
    /\ length (smoothedValues this') = length (smoothedValues this)
    /\ length (peakValues this') = length (peakValues this)
    /\ length (peakHoldFrames this') = length (peakHoldFrames this)
    /\ (forall j, (j < barCount (config this))%nat ->
          bv_heights frame !! j
          = Some (Rmax 0 (Rmin 1 (smoothed_height
                                    (fd_logarithmic frequencyData) this j)))
          /\ smoothedValues this' !!! j
             = smoothed_height (fd_logarithmic frequencyData) this j
          /\ (peakValues this' !!! j, peakHoldFrames this' !!! j)
             = peak_step (peakDecay (config this)) (bv_heights frame !!! j)
                 (peakValues this !!! j, peakHoldFrames this !!! j)
          /\ bv_peaks frame !! j
             = Some (if peakHold (config this)
                     then peakValues this' !!! j else 0)
          /\ bv_colors frame !! j
             = Some (calculateWaveColor (colorScheme (config this))
                       (Rmax (bv_heights frame !!! j) (bv_peaks frame !!! j))))
    /\ (forall j, (barCount (config this) <= j)%nat ->
          smoothedValues this' !!! j = smoothedValues this !!! j
          /\ peakValues this' !!! j = peakValues this !!! j
          /\ peakHoldFrames this' !!! j = peakHoldFrames this !!! j).
Proof.
  intros Hsv Hpv Hph.
  destruct (calculateBarHeights_loop (fd_logarithmic frequencyData)
              (barCount (config this)) 0 this ltac:(lia))
    as (heights & s1 & Hrun1 & Hlen1 & Hcfg1 & Hpv1 & Hph1 & Hrot1 & Hl1 & Hall1).
  destruct (calculatePeaks_loop heights (length heights) 0 s1)
    as (peaks & s2 & Hrun2 & Hlen2 & Hcfg2 & Hsv2 & Hrot2 & Hlpv2 & Hlph2 & Hall2).
  { rewrite Hpv1. lia. }
  { rewrite Hph1. lia. }
  eexists _, s2.
  split.
  { unfold generateBarsVisualization.
    assert (Hheights : calculateBarHeights (fd_logarithmic frequencyData) this
                       = Returned (heights, s1)) by exact Hrun1.
    assert (Hpeaks : calculatePeaks heights s1 = Returned (peaks, s2))
      by exact Hrun2.
    rewrite (bind_Returned _ _ _ _ _ Hheights).
    rewrite (bind_Returned _ _ _ _ _ Hpeaks).
    unfold calculateBarColors at 1.
    unfold mbind at 1. unfold M_bind at 1. unfold get at 1.
    unfold mbind at 1. unfold M_bind at 1. unfold for_push.
    rewrite for_push_pure. reflexivity. }
  cbn [bv_heights bv_peaks bv_colors].
  split; [exact Hlen1 |]. split; [lia |].
  split; [rewrite length_map, length_seq; exact Hlen1 |].
  split; [congruence |]. split; [congruence |].
  split; [rewrite Hsv2; exact Hl1 |].
  split; [rewrite Hlpv2, Hpv1; reflexivity |].
  split; [rewrite Hlph2, Hph1; reflexivity |].
  split.
  - intros j Hj.
    destruct (Hall1 j) as [Hin1 _]. destruct Hin1 as [E1 E2]; [lia |].
    replace (j - 0)%nat with j in E2 by lia.
    destruct (Hall2 j) as [Hin2 _]. destruct Hin2 as [E3 E4]; [lia |].
    replace (j - 0)%nat with j in E4 by lia.
    split; [exact E2 |]. split; [rewrite Hsv2; exact E1 |].
    split; [rewrite E3, Hcfg1, Hpv1, Hph1; reflexivity |].
    split; [rewrite E4, Hcfg1; reflexivity |].
    rewrite list_lookup_fmap, lookup_seq_lt by lia.
    cbn [fmap option_fmap option_map Nat.add]. f_equal.
    rewrite Hcfg2, Hcfg1. unfold calculateWaveColor.
    destruct (colorScheme (config this)); reflexivity.
  - intros j Hj.
    destruct (Hall1 j) as [_ Hout1]. destruct (Hall2 j) as [_ Hout2].
    destruct Hout2 as [E1 E2]; [lia |].
    rewrite Hsv2, Hout1, E1, E2, Hpv1, Hph1 by lia.
    repeat split; reflexivity.
Qed.

Lemma Forall_lookup_total (P : R -> Prop) (l : list R) :
  (forall j, (j < length l)%nat -> P (l !!! j)) -> Forall P l.
Proof.
  intros H. apply Forall_lookup. intros j v Hv.
  rewrite <- (list_lookup_total_correct _ _ _ Hv).
  apply H. apply lookup_lt_Some in Hv. exact Hv.
Qed.

Lemma Forall_lookup_total_1 (P : R -> Prop) (l : list R) (j : nat) :
  Forall P l -> (j < length l)%nat -> P (l !!! j).
Proof.
  intros H Hj. rewrite Forall_lookup in H. apply (H j).
  apply list_lookup_lookup_total_lt, Hj.
Qed.

Lemma clamp_unit (x : R) : 0 <= Rmax 0 (Rmin 1 x) <= 1.
Proof. unfold Rmax, Rmin. repeat destruct (Rle_dec _ _); lra. Qed.

(** X10: on a manager that satisfies the length invariant, a bars call
    with a non-null snapshot returns exactly [barCount] heights, peaks and
    colours; every height lies in [0,1] whatever the band values and the
    amplification are; the invariant, the configuration and the rotation
    are kept. *)
Theorem bars_frame_shape (frequencyData : FrequencyData) (this : Manager) :
  wf this ->
  exists frame this',
    generateBarsVisualization (Some frequencyData) this = Returned (frame, this')
    /\ length (bv_heights frame) = barCount (config this)
    /\ length (bv_peaks frame) = barCount (config this)
    /\ length (bv_colors frame) = barCount (config this)
    /\ Forall (fun h => 0 <= h <= 1) (bv_heights frame)
    /\ wf this'
    /\ config this' = config this
    /\ rotation this' = rotation this.
Proof.
  intros Hwf. destruct (wf_covers this Hwf) as (Hsv & Hpv & Hph).
  destruct (generateBarsVisualization_frame frequencyData this Hsv Hpv Hph)
    as (frame & this' & Hrun & Hlh & Hlp & Hlc & Hcfg & Hrot & Hlsv & Hlpv
        & Hlph & Hin & _).
  exists frame, this'. split; [exact Hrun |].
  split; [exact Hlh |]. split; [exact Hlp |]. split; [exact Hlc |].
  split; [| split; [| split; [exact Hcfg | exact Hrot]]].
  - apply Forall_lookup_total. intros j Hj.
    destruct (Hin j ltac:(lia)) as (E & _).
    rewrite (list_lookup_total_correct _ _ _ E). apply clamp_unit.
  - destruct Hwf as ((_ & Hs2 & Hs3) & Hbars).
    unfold wf, sized. rewrite Hcfg, Hlsv, Hlpv, Hlph.
    repeat split; assumption.
Qed.

Lemma bars_frame_shape_witness :
  exists frame this',
    generateBarsVisualization
      (Some {| fd_raw := []; fd_logarithmic := [3; 1 / 2]; fd_peaks := [] |})
      (new_manager two_bar_config) = Returned (frame, this')
    /\ length (bv_heights frame) = barCount (config (new_manager two_bar_config))
    /\ length (bv_peaks frame) = barCount (config (new_manager two_bar_config))
    /\ length (bv_colors frame) = barCount (config (new_manager two_bar_config))
    /\ Forall (fun h => 0 <= h <= 1) (bv_heights frame)
    /\ wf this'
    /\ config this' = config (new_manager two_bar_config)
    /\ rotation this' = rotation (new_manager two_bar_config).
Proof.
  apply (bars_frame_shape
           {| fd_raw := []; fd_logarithmic := [3; 1 / 2]; fd_peaks := [] |}
           (new_manager two_bar_config)).
  apply wf_new_manager.
Defined.

Lemma peak_step_unit (decay h p : R) (hold : nat) :
  0 <= decay <= 1 -> 0 <= h <= 1 -> 0 <= p <= 1 ->
  0 <= (peak_step decay h (p, hold)).1 <= 1.
Proof.
  intros Hd Hh Hp. unfold peak_step. cbn [fst snd].
  repeat case_decide; cbn [fst]; nra.
Qed.

(** X11: if moreover the decay rate lies in [0,1] and the tracked peaks
    lie in [0,1] (as after construction or [reset]), then after a bars
    call the tracked peaks still lie in [0,1], every reported peak lies in
    [0,1], and every bar colour has its three channels in [0,1]. *)
Theorem bars_frame_ranges (frequencyData : FrequencyData) (this : Manager) :
  wf this ->
  0 <= peakDecay (config this) <= 1 ->
  Forall (fun p => 0 <= p <= 1) (peakValues this) ->
  exists frame this',
    generateBarsVisualization (Some frequencyData) this = Returned (frame, this')
    /\ Forall (fun p => 0 <= p <= 1) (peakValues this')
    /\ Forall (fun p => 0 <= p <= 1) (bv_peaks frame)
    /\ Forall color_in_range (bv_colors frame).
Proof.
  intros Hwf Hdecay Hunit.
  destruct (wf_covers this Hwf) as (Hsv & Hpv & Hph).
  destruct (generateBarsVisualization_frame frequencyData this Hsv Hpv Hph)
    as (frame & this' & Hrun & Hlh & Hlp & Hlc & Hcfg & Hrot & Hlsv & Hlpv
        & Hlph & Hin & Hout).
  assert (Hheight : forall j, (j < barCount (config this))%nat ->
             0 <= bv_heights frame !!! j <= 1).
  { intros j Hj. destruct (Hin j Hj) as (E & _).
    rewrite (list_lookup_total_correct _ _ _ E). apply clamp_unit. }
  assert (Hpeak' : forall j, (j < length (peakValues this'))%nat ->
             0 <= peakValues this' !!! j <= 1).
  { intros j Hj.
    destruct (decide (j < barCount (config this))%nat) as [Hjb|Hjb].
    - destruct (Hin j Hjb) as (_ & _ & E & _).
      apply (f_equal fst) in E. cbn [fst] in E. rewrite E.
      apply peak_step_unit;
        [exact Hdecay | apply Hheight, Hjb
        | apply Forall_lookup_total_1; [exact Hunit | lia]].
    - destruct (Hout j ltac:(lia)) as (_ & E & _). rewrite E.
      apply Forall_lookup_total_1; [exact Hunit | lia]. }
  assert (Hreported : forall j, (j < barCount (config this))%nat ->
             0 <= bv_peaks frame !!! j <= 1).
  { intros j Hj. destruct (Hin j Hj) as (_ & _ & _ & E & _).
    rewrite (list_lookup_total_correct _ _ _ E).
    destruct (peakHold (config this)); [apply Hpeak'; lia | lra]. }
  exists frame, this'. split; [exact Hrun |].
  split; [apply Forall_lookup_total, Hpeak' |].
  split.
  - apply Forall_lookup_total. intros j Hj. apply Hreported. lia.
  - apply Forall_lookup. intros j c Hc.
    assert (Hj : (j < barCount (config this))%nat)
      by (apply lookup_lt_Some in Hc; lia).
    destruct (Hin j Hj) as (_ & _ & _ & _ & E).
    rewrite E in Hc. injection Hc as <-.
    apply calculateWaveColor_in_range.
    specialize (Hheight j Hj). specialize (Hreported j Hj).
    unfold Rmax. destruct (Rle_dec _ _); lra.
Qed.

Lemma bars_frame_ranges_witness :
  exists frame this',
    generateBarsVisualization
      (Some {| fd_raw := []; fd_logarithmic := [3; 1 / 2]; fd_peaks := [] |})
      (new_manager two_bar_config) = Returned (frame, this')
    /\ Forall (fun p => 0 <= p <= 1) (peakValues this')
    /\ Forall (fun p => 0 <= p <= 1) (bv_peaks frame)
    /\ Forall color_in_range (bv_colors frame).
Proof.
  apply (bars_frame_ranges
           {| fd_raw := []; fd_logarithmic := [3; 1 / 2]; fd_peaks := [] |}
           (new_manager two_bar_config)).
  - apply wf_new_manager.
  - simpl. lra.
  - simpl. repeat constructor; lra.
Defined.

(** X12: with [peakHold] switched off every reported peak is 0 and every
    bar colour is the colour of the bar's height alone, while the peak
    tracker still takes its compare, hold or decay step for each bar. *)
Theorem bars_frame_without_peak_hold (frequencyData : FrequencyData)
  (this : Manager) :
  wf this ->
  peakHold (config this) = false ->
  exists frame this',
    generateBarsVisualization (Some frequencyData) this = Returned (frame, this')
    /\ length (bv_peaks frame) = barCount (config this)
    /\ Forall (fun p => p = 0) (bv_peaks frame)
    /\ forall j, (j < barCount (config this))%nat ->
         (peakValues this' !!! j, peakHoldFrames this' !!! j)
         = peak_step (peakDecay (config this)) (bv_heights frame !!! j)
             (peakValues this !!! j, peakHoldFrames this !!! j)
         /\ bv_colors frame !! j
            = Some (calculateWaveColor (colorScheme (config this))
                      (bv_heights frame !!! j)).
Proof.
  intros Hwf Hoff. destruct (wf_covers this Hwf) as (Hsv & Hpv & Hph).
  destruct (generateBarsVisualization_frame frequencyData this Hsv Hpv Hph)
    as (frame & this' & Hrun & Hlh & Hlp & Hlc & _ & _ & _ & _ & _ & Hin & _).
  assert (Hzero : forall j, (j < barCount (config this))%nat ->
             bv_peaks frame !!! j = 0).
  { intros j Hj. destruct (Hin j Hj) as (_ & _ & _ & E & _).
    rewrite (list_lookup_total_correct _ _ _ E), Hoff. reflexivity. }
  exists frame, this'. split; [exact Hrun |]. split; [exact Hlp |].
  split.
  - apply Forall_lookup_total. intros j Hj. apply Hzero. lia.
  - intros j Hj. destruct (Hin j Hj) as (Eh & _ & Estep & _ & Ecol).
    split; [exact Estep |].
    rewrite Ecol, (Hzero j Hj). do 2 f_equal.
    rewrite (list_lookup_total_correct _ _ _ Eh).
    pose proof (clamp_unit (smoothed_height (fd_logarithmic frequencyData)
                              this j)).
    apply Rmax_left. lra.
Qed.

Lemma bars_frame_without_peak_hold_witness :
  exists frame this',
    generateBarsVisualization
      (Some {| fd_raw := []; fd_logarithmic := [3; 1 / 2]; fd_peaks := [] |})
      (new_manager quiet_config) = Returned (frame, this')
    /\ length (bv_peaks frame) = 2%nat
    /\ Forall (fun p => p = 0) (bv_peaks frame).
Proof.
  destruct (bars_frame_without_peak_hold
              {| fd_raw := []; fd_logarithmic := [3; 1 / 2]; fd_peaks := [] |}
              (new_manager quiet_config) (wf_new_manager quiet_config) eq_refl)
    as (frame & this' & Hrun & Hlen & Hzero & _).
  exists frame, this'. split; [exact Hrun |]. split; [exact Hlen | exact Hzero].
Defined.

(** ** Peak hold for any input *)

Lemma peak_hold_invariant (n i : nat) (heights_at : nat -> list R)
  (this : Manager) (k : nat) :
  sized n this ->
  (i < n)%nat ->
  (forall f, length (heights_at f) = n) ->
  heights_at 0%nat !!! i > peakValues this !!! i ->
  (forall f, (1 <= f <= k)%nat ->
     heights_at f !!! i <= heights_at 0%nat !!! i) ->
  (k <= 31)%nat ->
  exists out this',
    peaks_through heights_at k this = Returned (out, this')
    /\ config this' = config this
    /\ length (peakValues this') = n
    /\ length (peakHoldFrames this') = n
    /\ out !! i = Some (if peakHold (config this)
                        then peakValues this' !!! i else 0)
    /\ ((k <= 30)%nat ->
        peakValues this' !!! i = heights_at 0%nat !!! i
        /\ peakHoldFrames this' !!! i = (30 - k)%nat)
    /\ (k = 31%nat ->
        peakValues this' !!! i
          = heights_at 0%nat !!! i * peakDecay (config this)
        /\ peakHoldFrames this' !!! i = 0%nat).
Proof.
  intros (Hpv & Hph & _) Hi Hlen Hnew.
  induction k as [|k IH]; intros Hbelow Hk.
  - destruct (calculatePeaks_at (heights_at 0%nat) this)
      as (out & this' & Hrun & _ & Hcfg & _ & _ & Hlpv & Hlph & Hall).
    { rewrite Hlen. lia. }
    { rewrite Hlen. lia. }
    destruct (Hall i) as [Hstep Hout]; [rewrite Hlen; exact Hi |].
    unfold peak_step in Hstep. cbn [fst snd] in Hstep.
    destruct (decide (heights_at 0%nat !!! i > peakValues this !!! i))
      as [_|Hn]; [| contradiction].
    injection Hstep as Hv Hh.
    exists out, this'.
    split; [exact Hrun |]. split; [exact Hcfg |].
    split; [lia |]. split; [lia |]. split; [exact Hout |].
    split; [intros _; split; [exact Hv | exact Hh] | lia].
  - destruct IH as (out0 & s & Hrun0 & Hcfg0 & Hlpv0 & Hlph0 & _ & Hlow & _).
    { intros f Hf. apply Hbelow. lia. }
    { lia. }
    destruct Hlow as [Hv Hh]; [lia |].
    destruct (calculatePeaks_at (heights_at (S k)) s)
      as (out & this' & Hrun & _ & Hcfg & _ & _ & Hlpv & Hlph & Hall).
    { rewrite Hlen. lia. }
    { rewrite Hlen. lia. }
    destruct (Hall i) as [Hstep Hout]; [rewrite Hlen; exact Hi |].
    rewrite Hcfg0 in Hstep, Hout, Hcfg. rewrite Hv, Hh in Hstep.
    specialize (Hbelow (S k) ltac:(lia)).
    unfold peak_step in Hstep. cbn [fst snd] in Hstep.
    destruct (decide (heights_at (S k) !!! i > heights_at 0%nat !!! i))
      as [Hn|_]; [lra |].
    exists out, this'.
    split; [cbn [peaks_through]; rewrite (bind_Returned _ _ _ _ _ Hrun0);
            exact Hrun |].
    split; [exact Hcfg |]. split; [lia |]. split; [lia |].
    split; [exact Hout |].
    destruct (decide (30 - k > 0)%nat) as [Hhold|Hzero];
      injection Hstep as Hv' Hh'.
    + split; [intros _; split; [exact Hv' | lia] | lia].
    + split; [lia | intros _; split; [exact Hv' | lia]].
Qed.

(** X13: whatever the earlier state, once a bar's height exceeds its
    tracked peak the peak takes that height, keeps it through the next 30
    frames as long as the bar's height does not exceed it, and is
    multiplied by the decay rate at the 31st such frame. *)
Theorem peak_hold_duration (n i : nat) (heights_at : nat -> list R)
  (this : Manager) (k : nat) :
  sized n this ->
  (i < n)%nat ->
  (forall f, length (heights_at f) = n) ->
  heights_at 0%nat !!! i > peakValues this !!! i ->
  (forall f, (1 <= f <= k)%nat ->
     heights_at f !!! i <= heights_at 0%nat !!! i) ->
  (k <= 31)%nat ->
  exists out this',
    peaks_through heights_at k this = Returned (out, this')
    /\ ((k <= 30)%nat -> peakValues this' !!! i = heights_at 0%nat !!! i)
    /\ (k = 31%nat ->
        peakValues this' !!! i
          = heights_at 0%nat !!! i * peakDecay (config this)).
Proof.
  intros Hsized Hi Hlen Hnew Hbelow Hk.
  destruct (peak_hold_invariant n i heights_at this k
              Hsized Hi Hlen Hnew Hbelow Hk)
    as (out & this' & Hrun & _ & _ & _ & _ & Hlow & Hhigh).
  exists out, this'. split; [exact Hrun |]. split.
  - intros H. apply Hlow, H.
  - intros H. apply Hhigh, H.
Qed.

Lemma peak_hold_duration_witness :
  exists out this',
    peaks_through step_heights 31 (new_manager two_bar_config)
      = Returned (out, this')
    /\ ((31 <= 30)%nat -> peakValues this' !!! 0%nat = step_heights 0 !!! 0%nat)
    /\ (31%nat = 31%nat ->
        peakValues this' !!! 0%nat
          = step_heights 0 !!! 0%nat
            * peakDecay (config (new_manager two_bar_config))).
Proof.
  apply (peak_hold_duration 2 0 step_heights (new_manager two_bar_config) 31).
  - unfold sized. cbn. repeat split; reflexivity.
  - lia.
  - intros [|f]; reflexivity.
  - cbn. lra.
  - intros [|f] Hf; cbn; lra.
  - lia.
Defined.

(** ** Circular frames *)

(** A loop keeps what each pass keeps, and every value it pushes has what
    each pass's value has. *)
Lemma for_push_outputs {A} (I : Manager -> Prop) (P : A -> Prop)
  (body : nat -> M A) (l : list nat) (this : Manager) :
  I this ->
  (forall i s, I s -> exists a s', body i s = Returned (a, s') /\ I s' /\ P a) ->
  exists out this',
    mapM body l this = Returned (out, this')
    /\ length out = length l
    /\ I this'
    /\ Forall P out.
Proof.
  intros HI Hbody. revert this HI.
  induction l as [|i l IH]; intros this HI.
  - exists [], this.
    split; [reflexivity | split; [reflexivity | split; [exact HI | constructor]]].
  - destruct (Hbody i this HI) as (a & s1 & Ha & HI1 & HP).
    destruct (IH s1 HI1) as (out & s2 & Hout & Hlen & HI2 & HPs).
    exists (a :: out), s2.
    split; [| split; [simpl; congruence | split; [exact HI2 |]]].
    + cbn [mapM]. rewrite (bind_Returned _ _ _ _ _ Ha).
      rewrite (bind_Returned _ _ _ _ _ Hout). reflexivity.
    + constructor; assumption.
Qed.

Lemma on_circle (cx cy angle radius : R) :
  (cx + cos angle * radius - cx)² + (cy + sin angle * radius - cy)² = radius².
Proof.
  pose proof (sin2_cos2 angle) as H. unfold Rsqr in *.
  replace ((cx + cos angle * radius - cx) * (cx + cos angle * radius - cx)
           + (cy + sin angle * radius - cy) * (cy + sin angle * radius - cy))
    with (radius * radius * (sin angle * sin angle + cos angle * cos angle))
    by ring.
  rewrite H. ring.
Qed.

(** Everything a circular call on a non-null waveform does. *)
Lemma generateCircularVisualization_points (waveformData : WaveformData)
  (width height : R) (this : Manager) :
  let avgAmplitude := calculateAverageAmplitude (wd_normalized waveformData) in
  let baseRadius := Rmin (width / 2) (height / 2) * (3 / 10) in
  let bounded :=
    0 <= smoothing (config this) <= 1
    /\ smoothedValues this <> []
    /\ Forall (fun v => -1 <= v <= 1) (wd_normalized waveformData) in
  exists points this',
    generateCircularVisualization (Some waveformData) width height this
    = Returned
        ({| cv_points := points;
            cv_rotation := rotation this + (1 / 100 + avgAmplitude * (5 / 100));
            cv_centerGlow :=
              {| glow_intensity := Rmin (avgAmplitude * 2) 1;
                 glow_color := calculateCenterGlowColor avgAmplitude |} |},
         this')
    /\ length points = 256%nat
    /\ config this' = config this
    /\ peakValues this' = peakValues this
    /\ peakHoldFrames this' = peakHoldFrames this
    /\ length (smoothedValues this') = length (smoothedValues this)
    /\ rotation this' = rotation this + (1 / 100 + avgAmplitude * (5 / 100))
    /\ Forall (fun p =>
                 (pt_x p - width / 2)² + (pt_y p - height / 2)²
                 = (baseRadius
                    * (1 + pt_amplitude p * amplification (config this)))²
                 /\ pt_color p
                    = calculateWaveColor (colorScheme (config this))
                        (pt_amplitude p)
                 /\ (bounded ->
                     Forall (fun v => 0 <= v <= 1) (smoothedValues this) ->
                     0 <= pt_amplitude p <= 1)) points
    /\ (bounded ->
        Forall (fun v => 0 <= v <= 1) (smoothedValues this) ->
        Forall (fun v => 0 <= v <= 1) (smoothedValues this')).
Proof.
  intros avgAmplitude baseRadius bounded.
  unfold generateCircularVisualization. fold avgAmplitude.
  set (s0 := set_rotation
               (fun r => r + (1 / 100 + avgAmplitude * (5 / 100))) this).
  set (body := fun i : nat => _).
  set (unit_state := fun s : Manager =>
         bounded -> Forall (fun v => 0 <= v <= 1) (smoothedValues this) ->
         Forall (fun v => 0 <= v <= 1) (smoothedValues s)).
  set (I := fun s : Manager =>
         config s = config this /\ rotation s = rotation s0
         /\ peakValues s = peakValues this
         /\ peakHoldFrames s = peakHoldFrames this
         /\ length (smoothedValues s) = length (smoothedValues this)
         /\ unit_state s).
  set (P := fun p : CircularPoint =>
         (pt_x p - width / 2)² + (pt_y p - height / 2)²
         = (baseRadius * (1 + pt_amplitude p * amplification (config this)))²
         /\ pt_color p
            = calculateWaveColor (colorScheme (config this)) (pt_amplitude p)
         /\ (bounded -> Forall (fun v => 0 <= v <= 1) (smoothedValues this) ->
             0 <= pt_amplitude p <= 1)).
  assert (HI0 : I s0).
  { unfold I, unit_state, s0. cbn. repeat split; try reflexivity.
    intros _ H. exact H. }
  destruct (for_push_outputs I P body (seq 0 256) s0 HI0)
    as (points & this' & Hrun & Hlen & HI & HP).
  { intros i s (Hcfg & Hrot & Hpv & Hph & Hl & Hunit). unfold body.
    set (amplitude :=
           Rabs (default 0
                   (wd_normalized waveformData
                      !! Z.to_nat
                           (Zfloor (INR i / INR 256
                                    * INR (length (wd_normalized
                                                     waveformData))))))).
    assert (Hamp : bounded -> 0 <= amplitude <= 1).
    { intros (_ & _ & Hwave). unfold amplitude.
      split; [apply Rabs_pos |]. apply Rabs_le.
      destruct (wd_normalized waveformData !! _) as [v|] eqn:Hv;
        cbn [default from_option]; unfold Datatypes.id.
      - rewrite Forall_lookup in Hwave. specialize (Hwave _ _ Hv).
        cbv beta in Hwave. lra.
      - lra. }
    destruct (decide (i mod length (smoothedValues s)
                      < length (smoothedValues s))%nat) as [Hin|Hout].
    - pose proof (smoothValue_in_range amplitude
                    (i mod length (smoothedValues s)) s Hin) as Hsm.
      cbv zeta in Hsm.
      set (old := smoothedValues s !!! (i mod length (smoothedValues s))) in *.
      set (smoothed := old + (amplitude - old) * smoothing (config s)) in *.
      eexists _, _. split.
      { unfold mbind at 1. unfold M_bind at 1. unfold get at 1.
        rewrite (bind_Returned _ _ _ _ _ Hsm). reflexivity. }
      assert (Hsmoothed : bounded ->
                Forall (fun v => 0 <= v <= 1) (smoothedValues this) ->
                0 <= smoothed <= 1).
      { intros Hb Hu. specialize (Hunit Hb Hu). specialize (Hamp Hb).
        destruct Hb as (Hf & _ & _). rewrite <- Hcfg in Hf.
        assert (Hold : 0 <= old <= 1).
        { unfold old. apply Forall_lookup_total_1; [exact Hunit | exact Hin]. }
        unfold smoothed. nra. }
      split.
      + unfold I, unit_state. cbn. rewrite length_insert.
        repeat split; try assumption.
        intros Hb Hu. apply Forall_insert; [apply Hunit; assumption |].
        apply Hsmoothed; assumption.
      + unfold P. cbn. rewrite Hcfg. split; [apply on_circle |].
        split; [reflexivity | exact Hsmoothed].
    - pose proof (smoothValue_out_of_range amplitude
                    (i mod length (smoothedValues s)) s ltac:(lia)) as Hsm.
      eexists _, _. split.
      { unfold mbind at 1. unfold M_bind at 1. unfold get at 1.
        rewrite (bind_Returned _ _ _ _ _ Hsm). reflexivity. }
      split.
      + unfold I. repeat split; assumption.
      + unfold P. cbn. rewrite Hcfg. split; [apply on_circle |].
        split; [reflexivity |]. intros Hb _. apply Hamp, Hb. }
  destruct HI as (Hcfg & Hrot & Hpv & Hph & Hl & Hunit).
  exists points, this'.
  split.
  { unfold mbind at 1. unfold M_bind at 1. unfold modify at 1. fold s0.
    unfold for_push. rewrite (bind_Returned _ _ _ _ _ Hrun).
    unfold mbind, M_bind, get, mret, M_ret. rewrite Hrot. reflexivity. }
  split; [rewrite Hlen, length_seq; reflexivity |].
  split; [exact Hcfg |]. split; [exact Hpv |]. split; [exact Hph |].
  split; [exact Hl |]. split; [exact Hrot |].
  split; [exact HP | exact Hunit].
Qed.

(** X17: the silence ring.  A circular call with a null waveform returns
    256 points that all lie on the circle of radius
    [0.3 * min(width/2, height/2)] around [(width/2, height/2)], with
    amplitude 0 and the same dark grey, the first of them at angle 0; the
    glow is off. *)
Theorem silent_ring (width height : R) (this : Manager) :
  let baseRadius := Rmin (width / 2) (height / 2) * (3 / 10) in
  exists frame,
    generateCircularVisualization None width height this
      = Returned (frame, this)
    /\ length (cv_points frame) = 256%nat
    /\ Forall (fun p =>
                 (pt_x p - width / 2)² + (pt_y p - height / 2)² = baseRadius²
                 /\ pt_amplitude p = 0
                 /\ pt_color p = (3 / 10, 3 / 10, 3 / 10)) (cv_points frame)
    /\ (exists p, cv_points frame !! 0%nat = Some p
                  /\ pt_x p = width / 2 + baseRadius
                  /\ pt_y p = height / 2)
    /\ cv_centerGlow frame = {| glow_intensity := 0; glow_color := (0, 0, 0) |}.
Proof.
  intros baseRadius.
  unfold generateCircularVisualization, generateSilentCircular, for_push.
  fold baseRadius. eexists. split.
  { erewrite bind_Returned by apply for_push_pure. reflexivity. }
  cbn [cv_points cv_centerGlow].
  split; [rewrite length_map, length_seq; reflexivity |].
  split; [| split; [| reflexivity]].
  - apply Forall_forall. intros p Hp.
    apply list_elem_of_In, in_map_iff in Hp as (i & <- & _).
    cbn [pt_x pt_y pt_amplitude pt_color].
    split; [apply on_circle | split; reflexivity].
  - eexists. split; [reflexivity |]. cbn [pt_x pt_y].
    replace (INR 0 * (PI * 2 / INR 256)) with 0 by (simpl; lra).
    rewrite cos_0, sin_0. split; ring.
Qed.

(** X18: in a circular frame from a non-empty waveform, on a manager
    whose smoother's array is not empty, there are 256 points, each at
    distance [baseRadius * (1 + amplitude * amplification)] from the
    centre, where [amplitude] is the point's own smoothed amplitude, and
    each coloured by that amplitude; the peak tracker and the
    configuration are untouched. *)
Theorem circular_points_on_rings (waveformData : WaveformData)
  (width height : R) (this : Manager) :
  wd_normalized waveformData <> [] ->
  smoothedValues this <> [] ->
  let baseRadius := Rmin (width / 2) (height / 2) * (3 / 10) in
  exists frame this',
    generateCircularVisualization (Some waveformData) width height this
      = Returned (frame, this')
    /\ length (cv_points frame) = 256%nat
    /\ Forall (fun p =>
                 (pt_x p - width / 2)² + (pt_y p - height / 2)²
                 = (baseRadius
                    * (1 + pt_amplitude p * amplification (config this)))²
                 /\ pt_color p
                    = calculateWaveColor (colorScheme (config this))
                        (pt_amplitude p)) (cv_points frame)
    /\ config this' = config this
    /\ peakValues this' = peakValues this
    /\ peakHoldFrames this' = peakHoldFrames this.
Proof.
  intros _ _ baseRadius.
  destruct (generateCircularVisualization_points waveformData width height this)
    as (points & this' & Hrun & Hlen & Hcfg & Hpv & Hph & _ & _ & HP & _).
  eexists _, this'. split; [exact Hrun |]. cbn [cv_points].
  split; [exact Hlen |].
  split; [| split; [exact Hcfg | split; [exact Hpv | exact Hph]]].
  eapply Forall_impl; [exact HP |].
  intros p (Hgeo & Hcol & _). split; [exact Hgeo | exact Hcol].
Qed.

Lemma circular_points_on_rings_witness :
  exists frame this',
    generateCircularVisualization
      (Some {| wd_raw := [Init.Byte.x20]; wd_normalized := [- (3 / 4)] |})
      640 480 (new_manager two_bar_config) = Returned (frame, this')
    /\ length (cv_points frame) = 256%nat
    /\ Forall (fun p =>
                 (pt_x p - 640 / 2)² + (pt_y p - 480 / 2)²
                 = (Rmin (640 / 2) (480 / 2) * (3 / 10)
                    * (1 + pt_amplitude p
                           * amplification
                               (config (new_manager two_bar_config))))²
                 /\ pt_color p
                    = calculateWaveColor
                        (colorScheme (config (new_manager two_bar_config)))
                        (pt_amplitude p)) (cv_points frame)
    /\ config this' = config (new_manager two_bar_config)
    /\ peakValues this' = peakValues (new_manager two_bar_config)
    /\ peakHoldFrames this' = peakHoldFrames (new_manager two_bar_config).
Proof.
  apply (circular_points_on_rings
           {| wd_raw := [Init.Byte.x20]; wd_normalized := [- (3 / 4)] |}
           640 480 (new_manager two_bar_config)); discriminate.
Defined.

(** X19: for a non-empty waveform within [-1,1], a circular call advances
    the rotation accumulator by [0.01 + 0.05 * average amplitude], that is
    by at least 0.01 and at most 0.06; the frame carries the advanced
    rotation, and its glow intensity lies in [0,1]. *)
Theorem circular_rotation_advance (waveformData : WaveformData)
  (width height : R) (this : Manager) :
  wd_normalized waveformData <> [] ->
  Forall (fun v => -1 <= v <= 1) (wd_normalized waveformData) ->
  exists frame this',
    generateCircularVisualization (Some waveformData) width height this
      = Returned (frame, this')
    /\ rotation this' = cv_rotation frame
    /\ cv_rotation frame
       = rotation this + 1 / 100
         + calculateAverageAmplitude (wd_normalized waveformData) * (5 / 100)
    /\ rotation this + 1 / 100 <= cv_rotation frame <= rotation this + 6 / 100
    /\ 0 <= glow_intensity (cv_centerGlow frame) <= 1.
Proof.
  intros Hne Hwave.
  destruct (generateCircularVisualization_points waveformData width height this)
    as (points & this' & Hrun & _ & _ & _ & _ & _ & Hrot & _ & _).
  pose proof (calculateAverageAmplitude_unit _ Hne Hwave) as Havg.
  eexists _, this'. split; [exact Hrun |].
  cbn [cv_rotation cv_centerGlow glow_intensity].
  split; [exact Hrot |]. split; [lra |]. split; [lra |].
  unfold Rmin. destruct (Rle_dec _ _); lra.
Qed.

Lemma circular_rotation_advance_witness :
  exists frame this',
    generateCircularVisualization
      (Some {| wd_raw := [Init.Byte.x20]; wd_normalized := [- (3 / 4)] |})
      640 480 (new_manager two_bar_config) = Returned (frame, this')
    /\ rotation this' = cv_rotation frame
    /\ cv_rotation frame
       = rotation (new_manager two_bar_config) + 1 / 100
         + calculateAverageAmplitude [- (3 / 4)] * (5 / 100)
    /\ rotation (new_manager two_bar_config) + 1 / 100 <= cv_rotation frame
       <= rotation (new_manager two_bar_config) + 6 / 100
    /\ 0 <= glow_intensity (cv_centerGlow frame) <= 1.
Proof.
  apply (circular_rotation_advance
           {| wd_raw := [Init.Byte.x20]; wd_normalized := [- (3 / 4)] |}
           640 480 (new_manager two_bar_config)).
  - discriminate.
  - cbn. repeat constructor; lra.
Defined.

(** X20: if the smoothing factor lies in [0,1], the smoother's array is
    not empty and holds values in [0,1], and the waveform lies within
    [-1,1], then every point of the circular frame has an amplitude in
    [0,1] and a colour with channels in [0,1], and the smoother's array
    still holds values in [0,1]. *)
Theorem circular_frame_ranges (waveformData : WaveformData)
  (width height : R) (this : Manager) :
  0 <= smoothing (config this) <= 1 ->
  smoothedValues this <> [] ->
  Forall (fun v => 0 <= v <= 1) (smoothedValues this) ->
  Forall (fun v => -1 <= v <= 1) (wd_normalized waveformData) ->
  exists frame this',
    generateCircularVisualization (Some waveformData) width height this
      = Returned (frame, this')
    /\ Forall (fun p => 0 <= pt_amplitude p <= 1
                        /\ color_in_range (pt_color p)) (cv_points frame)
    /\ Forall (fun v => 0 <= v <= 1) (smoothedValues this').
Proof.
  intros Hf Hne Hunit Hwave.
  destruct (generateCircularVisualization_points waveformData width height this)
    as (points & this' & Hrun & _ & _ & _ & _ & _ & _ & HP & Hstate).
  cbv zeta in HP, Hstate.
  assert (Hbounded : 0 <= smoothing (config this) <= 1
                     /\ smoothedValues this <> []
                     /\ Forall (fun v => -1 <= v <= 1)
                          (wd_normalized waveformData))
    by (split; [exact Hf | split; [exact Hne | exact Hwave]]).
  eexists _, this'. split; [exact Hrun |]. cbn [cv_points].
  split; [| apply Hstate; [exact Hbounded | exact Hunit]].
  eapply Forall_impl; [exact HP |].
  intros p (_ & Hcol & Hamp).
  assert (Ha : 0 <= pt_amplitude p <= 1).
  { apply Hamp; [exact Hbounded | exact Hunit]. }
  split; [exact Ha |]. rewrite Hcol.
  apply calculateWaveColor_in_range, Ha.
Qed.

Lemma circular_frame_ranges_witness :
  exists frame this',
    generateCircularVisualization
      (Some {| wd_raw := [Init.Byte.x20]; wd_normalized := [- (3 / 4)] |})
      640 480 (new_manager two_bar_config) = Returned (frame, this')
    /\ Forall (fun p => 0 <= pt_amplitude p <= 1
                        /\ color_in_range (pt_color p)) (cv_points frame)
    /\ Forall (fun v => 0 <= v <= 1) (smoothedValues this').
Proof.
  apply (circular_frame_ranges
           {| wd_raw := [Init.Byte.x20]; wd_normalized := [- (3 / 4)] |}
           640 480 (new_manager two_bar_config)).
  - cbn. lra.
  - discriminate.
  - cbn. repeat constructor; lra.
  - cbn. repeat constructor; lra.
Defined.

(** ** The life of a manager *)

(** X14: the length invariant is a class invariant.  The constructor
    establishes it, and on a manager that has it every public method
    returns and keeps it: both generators (null or non-null input),
    [updateConfig] and [reset]. *)
Theorem wf_class_invariant (this : Manager) :
  wf this ->
  (forall frequencyData, exists frame this',
      generateBarsVisualization frequencyData this = Returned (frame, this')
      /\ wf this')
  /\ (forall waveformData width height, exists frame this',
         generateCircularVisualization waveformData width height this
           = Returned (frame, this')
         /\ wf this')
  /\ (forall newConfig, exists this',
         updateConfig newConfig this = Returned (tt, this') /\ wf this')
  /\ (exists this', reset this = Returned (tt, this') /\ wf this')
  /\ (forall config, wf (new_manager config)).
Proof.
  intros Hwf.
  split; [| split; [| split; [| split]]].
  - intros [fd|].
    + destruct (wf_covers this Hwf) as (Hsv & Hpv & Hph).
      destruct (generateBarsVisualization_frame fd this Hsv Hpv Hph)
        as (frame & this' & Hrun & _ & _ & _ & Hcfg & _ & Hlsv & Hlpv
            & Hlph & _).
      exists frame, this'. split; [exact Hrun |].
      destruct Hwf as ((_ & Hs2 & Hs3) & Hbars).
      unfold wf, sized. rewrite Hcfg, Hlsv, Hlpv, Hlph.
      repeat split; assumption.
    + eexists _, this. split; [apply generateSilentBars_eq | exact Hwf].
  - intros [wd|] width height.
    + destruct (generateCircularVisualization_points wd width height this)
        as (points & this' & Hrun & _ & Hcfg & Hpv & Hph & Hlsv & _).
      eexists _, this'. split; [exact Hrun |].
      destruct Hwf as ((_ & Hs2 & Hs3) & Hbars).
      unfold wf, sized. rewrite Hcfg, Hlsv, Hpv, Hph.
      repeat split; assumption.
    + destruct (generateSilentCircular_returns width height this)
        as (points & Hrun & _).
      eexists _, this. split; [exact Hrun | exact Hwf].
  - intros newConfig. apply wf_updateConfig, Hwf.
  - apply wf_reset, Hwf.
  - apply wf_new_manager.
Qed.

Lemma wf_class_invariant_witness :
  (forall frequencyData, exists frame this',
      generateBarsVisualization frequencyData (new_manager two_bar_config)
        = Returned (frame, this')
      /\ wf this')
  /\ (forall waveformData width height, exists frame this',
         generateCircularVisualization waveformData width height
           (new_manager two_bar_config) = Returned (frame, this')
         /\ wf this')
  /\ (forall newConfig, exists this',
         updateConfig newConfig (new_manager two_bar_config)
           = Returned (tt, this') /\ wf this')
  /\ (exists this', reset (new_manager two_bar_config) = Returned (tt, this')
                    /\ wf this')
  /\ (forall config, wf (new_manager config)).
Proof.
  apply (wf_class_invariant (new_manager two_bar_config)).
  unfold wf, sized. cbn. repeat split; try reflexivity. left. reflexivity.
Defined.

(** X15: when the three arrays have [barCount] entries, [reset] makes
    the manager the one the constructor builds from the current
    configuration (every peak, hold counter and smoothed value 0, rotation
    0), so the next bars call runs as on a fresh manager. *)
Theorem reset_restores_constructor_state (this : Manager) :
  sized (barCount (config this)) this ->
  reset this = Returned (tt, new_manager (config this))
  /\ forall frequencyData,
       (_ ← reset; generateBarsVisualization frequencyData) this
       = generateBarsVisualization frequencyData (new_manager (config this)).
Proof.
  intros (Hpv & Hph & Hsv).
  assert (Hreset : reset this = Returned (tt, new_manager (config this))).
  { unfold reset, mbind, M_bind, modify, new_manager.
    unfold set_rotation, set_smoothedValues, set_peakHoldFrames,
      set_peakValues.
    cbn [config peakValues peakHoldFrames smoothedValues rotation].
    rewrite Hpv, Hph, Hsv. reflexivity. }
  split; [exact Hreset |].
  intros fd. rewrite (bind_Returned _ _ _ _ _ Hreset). reflexivity.
Qed.

Lemma reset_restores_constructor_state_witness :
  reset (set_rotation (fun _ => 5) (new_manager two_bar_config))
  = Returned (tt, new_manager two_bar_config).
Proof.
  apply (reset_restores_constructor_state
           (set_rotation (fun _ => 5) (new_manager two_bar_config))).
  unfold sized. cbn. repeat split; reflexivity.
Defined.

(** X16: [updateConfig] always merges the given fields into the
    configuration and never touches the rotation.  The arrays are rebuilt
    as zeros of the new length exactly when a bar count is given that is
    neither 0 nor their current length; in every other case, a bar count
    of 0 included, they are kept entry for entry. *)
Theorem updateConfig_effect (newConfig : PartialConfig) (this : Manager) :
  exists this',
    updateConfig newConfig this = Returned (tt, this')
    /\ config this' = merge_config (config this) newConfig
    /\ rotation this' = rotation this
    /\ (forall n, p_barCount newConfig = Some n ->
          n <> 0%nat -> n <> length (peakValues this) ->
          peakValues this' = replicate n 0
          /\ peakHoldFrames this' = replicate n 0%nat
          /\ smoothedValues this' = replicate n 0
          /\ barCount (config this') = n)
    /\ ((p_barCount newConfig = None
         \/ p_barCount newConfig = Some 0%nat
         \/ p_barCount newConfig = Some (length (peakValues this))) ->
        peakValues this' = peakValues this
        /\ peakHoldFrames this' = peakHoldFrames this
        /\ smoothedValues this' = smoothedValues this).
Proof.
  unfold updateConfig, initializeArrays, mbind, M_bind, modify, get, mret, M_ret.
  cbn [set_config peakValues].
  destruct (p_barCount newConfig) as [n|] eqn:Hn.
  - destruct (decide (n = 0%nat)) as [Hz|Hz];
      [| destruct (decide (n = length (peakValues this))) as [Hl|Hl]].
    + rewrite (bool_decide_eq_false_2 (n <> 0%nat)) by tauto. cbn [andb].
      eexists. split; [reflexivity |]. cbn.
      repeat split; intros; try tauto; try congruence.
    + rewrite (bool_decide_eq_true_2 (n <> 0%nat)) by exact Hz.
      rewrite (bool_decide_eq_false_2 (n <> length (peakValues this)))
        by tauto.
      cbn [andb]. eexists. split; [reflexivity |]. cbn.
      repeat split; intros; try tauto; try congruence.
    + rewrite (bool_decide_eq_true_2 (n <> 0%nat)) by exact Hz.
      rewrite (bool_decide_eq_true_2 (n <> length (peakValues this)))
        by exact Hl.
      cbn [andb]. eexists. split; [reflexivity |]. cbn.
      unfold merge_config. rewrite Hn. cbn.
      split; [reflexivity |]. split; [reflexivity |]. split.
      * intros m Hm _ _. injection Hm as <-. repeat split; reflexivity.
      * intros [H|[H|H]]; [discriminate | |]; injection H as H; congruence.
  - eexists. split; [reflexivity |]. cbn.
    split; [reflexivity |]. split; [reflexivity |]. split.
    + intros m Hm. discriminate.
    + intros _. repeat split; reflexivity.
Qed.

(** ** The engine and the manager together *)

(** X21: one frame of the bars pipeline on a snapshot of at least two
    bins.  A bar below the engine's 64 bands moves its smoothed value
    towards (byte at the band's bin / 255) times the amplification, by
    the smoothing factor; a bar from 64 on has no band and moves towards
    0; the height is the smoothed value clamped to [0,1]. *)
Theorem bars_pipeline_heights (snapshot : Uint8Array) (this : Manager) :
  wf this ->
  (2 <= length snapshot)%nat ->
  exists frame this',
    analyse_bars snapshot this = Returned (frame, this')
    /\ length (bv_heights frame) = barCount (config this)
    /\ (forall j, (j < barCount (config this))%nat -> (j < 64)%nat ->
          exists b,
            snapshot !! Z.to_nat (binIndex (length snapshot) 64 j) = Some b
            /\ bv_heights frame !! j
               = Some (Rmax 0 (Rmin 1
                   (smoothedValues this !!! j
                    + (byte_value b / 255 * amplification (config this)
                       - smoothedValues this !!! j)
                      * smoothing (config this)))))
    /\ (forall j, (64 <= j < barCount (config this))%nat ->
          bv_heights frame !! j
          = Some (Rmax 0 (Rmin 1
              (smoothedValues this !!! j
               + (0 - smoothedValues this !!! j) * smoothing (config this))))).
Proof.
  intros Hwf HN. destruct (wf_covers this Hwf) as (Hsv & Hpv & Hph).
  destruct (generateBarsVisualization_frame
              {| fd_raw := snapshot;
                 fd_logarithmic := convertToLogarithmic FREQUENCY_BANDS snapshot;
                 fd_peaks :=
                   updatePeaks (convertToLogarithmic FREQUENCY_BANDS snapshot)
                     (replicate FREQUENCY_BANDS 0) |} this Hsv Hpv Hph)
    as (frame & this' & Hrun & Hlh & _ & _ & _ & _ & _ & _ & _ & Hin & _).
  exists frame, this'. split; [exact Hrun |]. split; [exact Hlh |].
  cbn [fd_logarithmic] in Hin. unfold FREQUENCY_BANDS in Hin.
  split.
  - intros j Hj Hband. destruct (Hin j Hj) as (E & _).
    destruct (convertToLogarithmic_lookup 64 snapshot j HN Hband)
      as (b & Hb & Hval).
    exists b. split; [exact Hb |].
    rewrite E. unfold smoothed_height. rewrite Hval. reflexivity.
  - intros j [Hband Hj]. destruct (Hin j Hj) as (E & _).
    rewrite E. unfold smoothed_height.
    assert (Hnone : convertToLogarithmic 64 snapshot !! j = None).
    { apply lookup_ge_None. unfold convertToLogarithmic.
      rewrite length_map, length_seq. exact Hband. }
    rewrite Hnone. cbn [default from_option].
    replace (0 * amplification (config this)) with 0 by ring. reflexivity.
Qed.

Lemma bars_pipeline_heights_witness :
  exists frame this',
    analyse_bars (single_bin_snapshot 534) (new_manager unsmoothed_config)
      = Returned (frame, this')
    /\ length (bv_heights frame)
       = barCount (config (new_manager unsmoothed_config)).
Proof.
  destruct (bars_pipeline_heights (single_bin_snapshot 534)
              (new_manager unsmoothed_config)
              (wf_new_manager unsmoothed_config))
    as (frame & this' & Hrun & Hlen & _).
  { unfold single_bin_snapshot. rewrite length_insert, length_replicate. lia. }
  exists frame, this'. split; [exact Hrun | exact Hlen].
Defined.

(** ** The centre glow up to intensity 1/2 *)

(** X22: while the intensity is at most 1/2 the centre-glow colour is in
    range and has no blue: it goes from green (0, 1, 0) at intensity 0
    through yellow at 1/4, as [(4 * intensity, 1, 0)], to red at 1/2, as
    [(1, 2 - 4 * intensity, 0)]. *)
Theorem center_glow_green_to_red (intensity : R) :
  0 <= intensity <= 1 / 2 ->
  color_in_range (calculateCenterGlowColor intensity)
  /\ (intensity <= 1 / 4 ->
      calculateCenterGlowColor intensity = (4 * intensity, 1, 0))
  /\ (1 / 4 <= intensity ->
      calculateCenterGlowColor intensity = (1, 2 - 4 * intensity, 0)).
Proof.
  intros [H0 H1].
  split; [apply calculateCenterGlowColor_in_range; lra |].
  unfold calculateCenterGlowColor, hsvToRgb. cbv zeta.
  set (H := (120 - intensity * 240) / 60).
  assert (HH : H = 2 - 4 * intensity) by (unfold H; lra).
  split; intros Hq.
  - destruct (Rlt_le_dec H 2) as [Hlt|Hge].
    + rewrite js_rem_small by lra. decide_sectors.
      rewrite Rabs_right by lra. f_equal; [f_equal |]; lra.
    + assert (E : H = 2) by lra. rewrite E.
      rewrite js_rem_self by lra. decide_sectors.
      rewrite Rabs_left by lra. f_equal; [f_equal |]; lra.
  - destruct (Rlt_le_dec H 1) as [Hlt|Hge].
    + rewrite js_rem_small by lra. decide_sectors.
      rewrite Rabs_left by lra. f_equal; [f_equal |]; lra.
    + assert (E : H = 1) by lra. rewrite E.
      rewrite js_rem_small by lra. decide_sectors.
      rewrite Rabs_right by lra. f_equal; [f_equal |]; lra.
Qed.

Lemma center_glow_green_to_red_witness :
  color_in_range (calculateCenterGlowColor (1 / 4))
  /\ (1 / 4 <= 1 / 4 -> calculateCenterGlowColor (1 / 4) = (4 * (1 / 4), 1, 0))
  /\ (1 / 4 <= 1 / 4 ->
      calculateCenterGlowColor (1 / 4) = (1, 2 - 4 * (1 / 4), 0)).
Proof. apply (center_glow_green_to_red (1 / 4)). lra. Defined.
